(** * agarthan-chain: the proof-of-work engine and its digest helper

    A shallow embedding of [src/lib/blockchain] (createGenesisBlock,
    addBlock, createBlock, mineBlock, validateChain) and of
    [src/lib/crypto/index.ts] (hash), followed by the properties the
    specification states about them.

    Conventions of the embedding.
    - A JavaScript string is a Rocq [string] holding its UTF-8 encoding, so
      [TextEncoder.encode] is the passage to the list of bytes.
    - A JavaScript number that holds an integer is the [Z] of its value;
      the engine builds its numbers from 0, [Date.now()] and [+ 1].  The
      operations are those of binary64: a sum is rounded to 53 significant
      bits, so that [n + 1] is [n] from 2^53 on, it is an infinity beyond
      [Number.MAX_VALUE], and [String(n)] writes the fewest digits that
      denote [n], with an exponent from 1e21 on.  Numbers with a fractional
      part, and fields that hold [NaN] or an infinity, are outside the
      embedding.
    - [duration] is a binary64 float, as [performance.now()] returns one.
    - [async]/[await] is sequential here: a rejected promise is a thrown
      exception, and every call of the platform (console, WebCrypto) is
      recorded in an event log.
    - [mineBlock] recurses without bound in the source; the embedding takes
      a fuel argument, one unit per call of [mineBlock]. *)

From Stdlib Require Import ZArith NArith List String Ascii Bool Lia.
From Stdlib Require Import Strings.Byte Numbers.DecimalString Numbers.DecimalPos.
From Stdlib Require Import Floats.PrimFloat.
Import ListNotations.

Local Open Scope Z_scope.
Local Open Scope list_scope.

(* ================================================================== *)
(** * The platform digest: FIPS 180-4

    [window.crypto.subtle.digest] is not code of the repository.  The
    general theorems below hold for any digest function; the closed
    examples run the functions of the standard, which is what the browser
    computes for the four names of [SupportedAlgorithm]. *)

Module FIPS180.

Definition byte_val (b : byte) : Z := Z.of_N (Byte.to_N b).

Definition val_byte (x : Z) : byte :=
  byte_of_ascii (ascii_of_N (Z.to_N (x mod 256))).

(** Big-endian reading and writing of words. *)
Definition be_word (bs : list byte) : Z :=
  fold_left (fun acc b => acc * 256 + byte_val b) bs 0.

Fixpoint be_bytes (n : nat) (x : Z) : list byte :=
  match n with
  | O => []
  | S n' => be_bytes n' (x / 256) ++ [val_byte x]
  end.

Fixpoint chunks {A : Type} (fuel size : nat) (l : list A) : list (list A) :=
  match fuel, l with
  | O, _ | _, [] => []
  | S fuel', _ => firstn size l :: chunks fuel' size (skipn size l)
  end.

(** Padding: the byte 0x80, zero bytes up to the length field, and the bit
    length of the message on [lenbytes] bytes. *)
Definition pad (blockbytes lenbytes : nat) (msg : list byte) : list byte :=
  let len := Z.of_nat (List.length msg) in
  let k := (- (len + 1 + Z.of_nat lenbytes)) mod Z.of_nat blockbytes in
  msg ++ [x80%byte] ++ repeat x00%byte (Z.to_nat k) ++ be_bytes lenbytes (8 * len).

Definition blocks (blockbytes wordbytes lenbytes : nat) (msg : list byte)
  : list (list Z) :=
  let padded := pad blockbytes lenbytes msg in
  map (fun blk => map be_word (chunks (List.length blk) wordbytes blk))
      (chunks (List.length padded) blockbytes padded).

Section Words.
Variable w : Z.

Definition trunc (x : Z) : Z := Z.land x (Z.ones w).
Definition rotr (n x : Z) : Z :=
  Z.lor (Z.shiftr x n) (trunc (Z.shiftl x (w - n))).
Definition rotl (n x : Z) : Z := rotr (w - n) x.
Definition Ch (x y z : Z) : Z := Z.lxor (Z.land x y) (Z.ldiff z x).
Definition Maj (x y z : Z) : Z :=
  Z.lxor (Z.lxor (Z.land x y) (Z.land x z)) (Z.land y z).
Definition Parity (x y z : Z) : Z := Z.lxor (Z.lxor x y) z.
Definition xor3 (x y z : Z) : Z := Z.lxor (Z.lxor x y) z.
Definition win (ws : list Z) (i : nat) : Z := nth i ws 0.
End Words.

(** ** SHA-224/256 and SHA-384/512 share one shape. *)

Record Sha2 := {
  wbits : Z;
  wbytes : nat;
  lenbytes : nat;
  bigS0 : Z * Z * Z;
  bigS1 : Z * Z * Z;
  smallS0 : Z * Z * Z;
  smallS1 : Z * Z * Z;
  roundK : list Z;
  initH : Z * Z * Z * Z * Z * Z * Z * Z;
  outwords : nat
}.

Section Sha2Core.
Variable P : Sha2.
Let w := wbits P.

Definition Sigma (r : Z * Z * Z) (x : Z) : Z :=
  let '(r1, r2, r3) := r in xor3 (rotr w r1 x) (rotr w r2 x) (rotr w r3 x).
Definition sigma (r : Z * Z * Z) (x : Z) : Z :=
  let '(r1, r2, s) := r in xor3 (rotr w r1 x) (rotr w r2 x) (Z.shiftr x s).

Definition Regs : Type := Z * Z * Z * Z * Z * Z * Z * Z.

Definition round2 (k wt : Z) (st : Regs) : Regs :=
  let '(a, b, c, d, e, f, g, h) := st in
  let t1 := h + Sigma (bigS1 P) e + Ch e f g + k + wt in
  let t2 := Sigma (bigS0 P) a + Maj a b c in
  (trunc w (t1 + t2), a, b, c, trunc w (d + t1), e, f, g).

(** The message schedule is kept as a window of the last sixteen words. *)
Fixpoint rounds2 (ks : list Z) (ws : list Z) (st : Regs) : Regs :=
  match ks with
  | [] => st
  | k :: ks' =>
      let next := trunc w (sigma (smallS1 P) (win ws 14) + win ws 9
                           + sigma (smallS0 P) (win ws 1) + win ws 0) in
      rounds2 ks' (tl ws ++ [next]) (round2 k (win ws 0) st)
  end.

Definition compress2 (st : Regs) (blk : list Z) : Regs :=
  let '(a, b, c, d, e, f, g, h) := st in
  let '(a', b', c', d', e', f', g', h') := rounds2 (roundK P) blk st in
  (trunc w (a + a'), trunc w (b + b'), trunc w (c + c'), trunc w (d + d'),
   trunc w (e + e'), trunc w (f + f'), trunc w (g + g'), trunc w (h + h')).

Definition regs_words (st : Regs) : list Z :=
  let '(a, b, c, d, e, f, g, h) := st in [a; b; c; d; e; f; g; h].

Definition sha2 (msg : list byte) : list byte :=
  let st := fold_left compress2
              (blocks (16 * wbytes P) (wbytes P) (lenbytes P) msg) (initH P) in
  flat_map (be_bytes (wbytes P)) (firstn (outwords P) (regs_words st)).
End Sha2Core.

(** The constants are what the standard says they are: the first [w] bits
    of the fractional parts of the cube roots (round constants) and of the
    square roots (initial values) of the first primes. *)

Fixpoint primes_from (fuel : nat) (k : Z) (found : list Z) : list Z :=
  match fuel with
  | O => found
  | S fuel' =>
      primes_from fuel' (k + 1)
        (if forallb (fun p => negb (k mod p =? 0)) found
         then found ++ [k] else found)
  end.

Definition primes (count : nat) : list Z := firstn count (primes_from 410 2 []).

(** The integer root of degree [deg], one bit at a time from the top. *)
Fixpoint root_bits (deg x : Z) (bit : nat) (r : Z) : Z :=
  match bit with
  | O => r
  | S bit' =>
      let r' := r + 2 ^ Z.of_nat bit' in
      root_bits deg x bit' (if r' ^ deg <=? x then r' else r)
  end.

Definition frac_root (deg w p : Z) : Z :=
  trunc w (root_bits deg (p * 2 ^ (deg * w)) (Z.to_nat w + 4) 0).

Definition regs_of_list (l : list Z) : Z * Z * Z * Z * Z * Z * Z * Z :=
  match l with
  | [a; b; c; d; e; f; g; h] => (a, b, c, d, e, f, g, h)
  | _ => (0, 0, 0, 0, 0, 0, 0, 0)
  end.

Definition sha256_params : Sha2 := Eval vm_compute in {|
  wbits := 32; wbytes := 4; lenbytes := 8;
  bigS0 := (2, 13, 22); bigS1 := (6, 11, 25);
  smallS0 := (7, 18, 3); smallS1 := (17, 19, 10);
  roundK := map (frac_root 3 32) (primes 64);
  initH := regs_of_list (map (frac_root 2 32) (primes 8));
  outwords := 8 |}.

Definition sha512_params : Sha2 := Eval vm_compute in {|
  wbits := 64; wbytes := 8; lenbytes := 16;
  bigS0 := (28, 34, 39); bigS1 := (14, 18, 41);
  smallS0 := (1, 8, 7); smallS1 := (19, 61, 6);
  roundK := map (frac_root 3 64) (primes 80);
  initH := regs_of_list (map (frac_root 2 64) (primes 8));
  outwords := 8 |}.

Definition sha384_params : Sha2 := Eval vm_compute in {|
  wbits := 64; wbytes := 8; lenbytes := 16;
  bigS0 := (28, 34, 39); bigS1 := (14, 18, 41);
  smallS0 := (1, 8, 7); smallS1 := (19, 61, 6);
  roundK := map (frac_root 3 64) (primes 80);
  initH := regs_of_list (map (frac_root 2 64) (skipn 8 (primes 16)));
  outwords := 6 |}.

Definition sha256 : list byte -> list byte := sha2 sha256_params.
Definition sha384 : list byte -> list byte := sha2 sha384_params.
Definition sha512 : list byte -> list byte := sha2 sha512_params.

(** ** SHA-1 *)

Definition Regs1 : Type := Z * Z * Z * Z * Z.

Definition f1 (t : nat) (b c d : Z) : Z :=
  if (t <? 20)%nat then Ch b c d
  else if (t <? 40)%nat then Parity b c d
  else if (t <? 60)%nat then Maj b c d
  else Parity b c d.

Definition k1 (t : nat) : Z :=
  if (t <? 20)%nat then 0x5a827999
  else if (t <? 40)%nat then 0x6ed9eba1
  else if (t <? 60)%nat then 0x8f1bbcdc
  else 0xca62c1d6.

Definition round1 (t : nat) (wt : Z) (st : Regs1) : Regs1 :=
  let '(a, b, c, d, e) := st in
  let tmp := trunc 32 (rotl 32 5 a + f1 t b c d + e + k1 t + wt) in
  (tmp, a, rotl 32 30 b, c, d).

Fixpoint rounds1 (ts : list nat) (ws : list Z) (st : Regs1) : Regs1 :=
  match ts with
  | [] => st
  | t :: ts' =>
      let next := rotl 32 1 (Z.lxor (xor3 (win ws 13) (win ws 8) (win ws 2))
                                    (win ws 0)) in
      rounds1 ts' (tl ws ++ [next]) (round1 t (win ws 0) st)
  end.

Definition compress1 (st : Regs1) (blk : list Z) : Regs1 :=
  let '(a, b, c, d, e) := st in
  let '(a', b', c', d', e') := rounds1 (seq 0 80) blk st in
  (trunc 32 (a + a'), trunc 32 (b + b'), trunc 32 (c + c'),
   trunc 32 (d + d'), trunc 32 (e + e')).

Definition sha1 (msg : list byte) : list byte :=
  let '(a, b, c, d, e) :=
    fold_left compress1 (blocks 64 4 8 msg)
      (0x67452301, 0xefcdab89, 0x98badcfe, 0x10325476, 0xc3d2e1f0) in
  flat_map (be_bytes 4) [a; b; c; d; e].

End FIPS180.


(* ================================================================== *)
(** * JavaScript values and the built-ins the sources call *)

Module JS.
Local Open Scope string_scope.

(** ** Numbers

    A number of the sources holds an integer: 0, [Date.now()], a position
    in an array, and what [+ 1] makes of them.  Such a number is the [Z] of
    its value.  A binary64 double holds every integer up to 2^53 in absolute
    value and, beyond, only the integers of at most 53 significant bits:
    those that [round] leaves as they are, up to [MAX_VALUE]. *)

(** The nearest integer of at most 53 significant bits; of two that are
    equally near, the one whose significand is even (roundTiesToEven). *)
Definition round (x : Z) : Z :=
  let m := Z.abs x in
  if (m <? 2 ^ 53)%Z then x
  else
    let shift := (Z.log2 m - 52)%Z in
    let significand := (m / 2 ^ shift)%Z in
    let rest := (m mod 2 ^ shift)%Z in
    let half := (2 ^ (shift - 1))%Z in
    let significand' :=
      if (half <? rest)%Z || ((half =? rest)%Z && Z.odd significand)
      then (significand + 1)%Z else significand in
    (Z.sgn x * (significand' * 2 ^ shift))%Z.

(** [Number.MAX_VALUE]. *)
Definition MAX_VALUE : Z := (2 ^ 53 - 1) * 2 ^ 971.

(** The values that meet the binary [+] in the sources: numbers, of which
    a sum can be infinite or, for two infinities of opposite signs, [NaN];
    and strings. *)
Inductive Value :=
| Num (n : Z)
| Infinity (negative : bool)
| NaN
| Str (s : string).

(** The number value of the real [x]: [x] rounded, and an infinity when
    the rounded value lies beyond [MAX_VALUE]. *)
Definition number (x : Z) : Value :=
  let r := round x in
  if (MAX_VALUE <? Z.abs r)%Z then Infinity (r <? 0)%Z else Num r.

(** [a + b] for two numbers whose sum is finite, as the sum of a number
    and 1 always is: the exact sum, rounded. *)
Definition add (a b : Z) : Z := round (a + b).

(** [s.repeat(count)]. *)
Fixpoint repeat (s : string) (count : nat) : string :=
  match count with
  | O => ""
  | S count' => s ++ repeat s count'
  end.

(** The decimal digits of an integer, with a minus sign for a negative
    one. *)
Definition decimal (n : Z) : string := NilZero.string_of_int (Z.to_int n).

(** [Number::toString] writes a number [v] with the fewest digits that
    still denote it: the digits [s], [k] of them, and the exponent [e] such
    that [s * 10^e] rounds to [v], with [k] as small as possible and, among
    those, [s * 10^e] nearest to [v].  [shortest_with v d k] looks for [s]
    and [e] at a given [k], for [v] of [d] decimal digits. *)
Definition denotes (v k : Z) (c : Z * Z) : bool :=
  (10 ^ (k - 1) <=? fst c)%Z && (fst c <? 10 ^ k)%Z
  && (round (fst c * 10 ^ snd c) =? v)%Z.

Definition nearer (v : Z) (c c' : Z * Z) : Z * Z :=
  let d := Z.abs (fst c * 10 ^ snd c - v) in
  let d' := Z.abs (fst c' * 10 ^ snd c' - v) in
  if (d' <? d)%Z || ((d' =? d)%Z && Z.even (fst c') && Z.odd (fst c))
  then c' else c.

Definition shortest_with (v d k : Z) : option (Z * Z) :=
  let around (e : Z) :=
    if (e <? 0)%Z then [] else [(v / 10 ^ e, e); (v / 10 ^ e + 1, e)]%Z in
  match filter (denotes v k)
          (flat_map around [d - k - 1; d - k; d - k + 1]%Z) with
  | [] => None
  | c :: cs => Some (fold_left (nearer v) cs c)
  end.

Fixpoint shortest (fuel : nat) (v d k : Z) : option (Z * (Z * Z)) :=
  match fuel with
  | O => None
  | S fuel' =>
      match shortest_with v d k with
      | Some c => Some (k, c)
      | None => shortest fuel' v d (k + 1)%Z
      end
  end.

(** [Number.prototype.toString()] on an integer.  Up to 2^53 the fewest
    digits are the decimal digits of the integer.  Beyond, the digits [s]
    are followed by zeros as long as the number has at most 21 digits, and
    by an exponent from 1e21 on: [String(2 ** 64)] is
    "18446744073709552000" and [String(2 ** 70)] is
    "1.1805916207174113e+21".  Seventeen digits denote any double; an
    integer that no double holds is written in full. *)
Definition Number_toString (n : Z) : string :=
  if (Z.abs n <? 2 ^ 53)%Z then decimal n
  else
    let v := Z.abs n in
    match shortest 17 v (Z.of_nat (String.length (decimal v))) 1 with
    | None => decimal n
    | Some (k, (s, e)) =>
        (if (n <? 0)%Z then "-" else "")
        ++ (if (k + e <=? 21)%Z then decimal s ++ repeat "0" (Z.to_nat e)
            else
              match decimal s with
              | String c EmptyString => String c ("e+" ++ decimal (k + e - 1))
              | String c digits =>
                  String c ("." ++ digits ++ "e+" ++ decimal (k + e - 1))
              | EmptyString => decimal n
              end)
    end.

Definition ToString (v : Value) : string :=
  match v with
  | Num n => Number_toString n
  | Infinity false => "Infinity"
  | Infinity true => "-Infinity"
  | NaN => "NaN"
  | Str s => s
  end.

(** [x + y]: the sum of two numbers; as soon as one operand is a string,
    the concatenation of the string conversions of both. *)
Definition plus (x y : Value) : Value :=
  match x, y with
  | Num a, Num b => number (a + b)
  | Num _, Infinity negative | Infinity negative, Num _ => Infinity negative
  | Infinity negative, Infinity negative' =>
      if Bool.eqb negative negative' then Infinity negative else NaN
  | NaN, (Num _ | Infinity _ | NaN) | (Num _ | Infinity _), NaN => NaN
  | _, Str _ | Str _, _ => Str (ToString x ++ ToString y)
  end.

(** [String(v)]. *)
Definition String_ (v : Value) : string := ToString v.

(** [!!s] for a string: only the empty string is falsy. *)
Definition truthy (s : string) : bool :=
  match s with
  | EmptyString => false
  | String _ _ => true
  end.

(** [s.startsWith(searchString)]. *)
Definition startsWith (s searchString : string) : bool :=
  String.prefix searchString s.

(** [s.padStart(targetLength, padString)]. *)
Definition padStart (s : string) (targetLength : nat) (padString : string)
  : string :=
  let missing := (targetLength - String.length s)%nat in
  String.substring 0 missing (repeat padString missing) ++ s.

(** [strings.join("")]. *)
Definition join (strings : list string) : string := String.concat "" strings.

Definition digit_char (alphabet : string) (d : N) : ascii :=
  match String.get (N.to_nat d) alphabet with
  | Some c => c
  | None => "0"%char
  end.

(** [n.toString(16)] on a non-negative integer. *)
Fixpoint toString16_from (fuel : nat) (n : N) (acc : string) : string :=
  match fuel with
  | O => acc
  | S fuel' =>
      let acc' := String (digit_char "0123456789abcdef" (n mod 16)) acc in
      if (n / 16 =? 0)%N then acc' else toString16_from fuel' (n / 16) acc'
  end.

Definition Number_toString16 (n : N) : string :=
  toString16_from (S (N.size_nat n)) n "".

Definition base64_alphabet : string :=
  "ABCDEFGHIJKLMNOPQRSTUVWXYZabcdefghijklmnopqrstuvwxyz0123456789+/".

Definition b64 (d : N) : ascii := digit_char base64_alphabet d.

(** [btoa(String.fromCharCode(...bytes))]: base64 with padding. *)
Fixpoint btoa (bytes : list N) : string :=
  match bytes with
  | [] => ""
  | [x] =>
      String (b64 (x / 4)) (String (b64 ((x mod 4) * 16)) "==")
  | [x; y] =>
      String (b64 (x / 4)) (String (b64 ((x mod 4) * 16 + y / 16))
        (String (b64 ((y mod 16) * 4)) "="))
  | x :: y :: z :: rest =>
      String (b64 (x / 4)) (String (b64 ((x mod 4) * 16 + y / 16))
        (String (b64 ((y mod 16) * 4 + z / 64)) (String (b64 (z mod 64))
          (btoa rest))))
  end%N.

(** [new TextEncoder().encode(data)]. *)
Definition TextEncoder_encode (data : string) : list byte :=
  list_byte_of_string data.

(** [Object.freeze(o)]: the object itself; records are immutable values. *)
Definition Object_freeze {A : Type} (o : A) : A := o.

(** [a[i]]: [undefined] outside of the array. *)
Definition Array_get {A : Type} (a : list A) (i : Z) : option A :=
  if (i <? 0)%Z then None else nth_error a (Z.to_nat i).

End JS.

(* ================================================================== *)
(** * Outcomes of asynchronous calls *)

Module Async.

(** Calls of the platform, in the order they are made. *)
Inductive Event :=
| ConsoleWarn (message : string)
| SubtleDigest (algorithm : string) (data : list byte).

Inductive Exception :=
| Error (message : string)
| TypeError (message : string).

(** A promise settles with a value or with an exception; [OutOfFuel] stands
    for a computation still running when the fuel is spent. *)
Inductive Outcome (A : Type) :=
| Returned (value : A) (log : list Event)
| Thrown (e : Exception) (log : list Event)
| OutOfFuel (log : list Event).

Arguments Returned {A} value log.
Arguments Thrown {A} e log.
Arguments OutOfFuel {A} log.

Definition ret {A : Type} (a : A) : Outcome A := Returned a [].
Definition throw {A : Type} (e : Exception) : Outcome A := Thrown e [].
Definition emit (ev : Event) : Outcome unit := Returned tt [ev].

(** [after log o]: the outcome [o], reached after the events of [log]. *)
Definition after {A : Type} (log : list Event) (o : Outcome A) : Outcome A :=
  match o with
  | Returned a l => Returned a (log ++ l)
  | Thrown e l => Thrown e (log ++ l)
  | OutOfFuel l => OutOfFuel (log ++ l)
  end.

Definition bind {A B : Type} (m : Outcome A) (k : A -> Outcome B) : Outcome B :=
  match m with
  | Returned a l => after l (k a)
  | Thrown e l => Thrown e l
  | OutOfFuel l => OutOfFuel l
  end.

Definition events {A : Type} (o : Outcome A) : list Event :=
  match o with
  | Returned _ l | Thrown _ l | OutOfFuel l => l
  end.

End Async.

Declare Scope async_scope.
Delimit Scope async_scope with async.
Notation "x <- m ;; k" := (Async.bind m (fun x => k))
  (at level 61, m at next level, right associativity) : async_scope.
Notation "m ;; k" := (Async.bind m (fun _ => k))
  (at level 61, right associativity) : async_scope.

(* ================================================================== *)
(** * src/lib/crypto/index.ts *)

Module Crypto.
Import Async.
Local Open Scope string_scope.
Local Open Scope async_scope.

Inductive SupportedAlgorithm := SHA_1 | SHA_256 | SHA_384 | SHA_512.

Definition algorithm_name (algorithm : SupportedAlgorithm) : string :=
  match algorithm with
  | SHA_1 => "SHA-1"
  | SHA_256 => "SHA-256"
  | SHA_384 => "SHA-384"
  | SHA_512 => "SHA-512"
  end.

Inductive SupportedOutputFormat := hex | base64.

(** [!x] for an argument that the caller may have left out. *)
Definition missing (x : option string) : bool :=
  match x with
  | None => true
  | Some s => negb (JS.truthy s)
  end.

Definition sha1_warning : string :=
  "SHA-1 is now considered vulnerable and should not be used for cryptographic applications.".

Section Hash.
(** [window.crypto.subtle.digest]. *)
Variable subtle_digest : SupportedAlgorithm -> list byte -> list byte.

Definition digest (algorithm : SupportedAlgorithm) (buffer : list byte)
  : Outcome (list byte) :=
  emit (SubtleDigest (algorithm_name algorithm) buffer) ;;
  ret (subtle_digest algorithm buffer).

Definition to_hex (bytes : list byte) : string :=
  JS.join (map (fun b => JS.padStart (JS.Number_toString16 (Byte.to_N b)) 2 "0")
               bytes).

(** [hash(algorithm, data, format = "hex")].  An argument is [None] when the
    call leaves it out (or passes [undefined] or [null]); the types of the
    source allow no algorithm but the four names, so an empty name is [None]
    too. *)
Definition hash (algorithm : option SupportedAlgorithm) (data : option string)
    (format : option SupportedOutputFormat) : Outcome string :=
  let format := match format with Some f => f | None => hex end in
  if missing (option_map algorithm_name algorithm) || missing data
  then throw (Error "Missing required parameters.")
  else
    match algorithm, data with
    | Some algorithm, Some data =>
        (match algorithm with
         | SHA_1 => emit (ConsoleWarn sha1_warning)
         | _ => ret tt
         end) ;;
        let buffer := JS.TextEncoder_encode data in
        h <- digest algorithm buffer ;;
        match format with
        | hex => ret (to_hex h)
        | base64 => ret (JS.btoa (map Byte.to_N h))
        end
    | _, _ => throw (Error "Missing required parameters.")
    end.

End Hash.

(** The digest of a browser. *)
Definition webcrypto (algorithm : SupportedAlgorithm) : list byte -> list byte :=
  match algorithm with
  | SHA_1 => FIPS180.sha1
  | SHA_256 => FIPS180.sha256
  | SHA_384 => FIPS180.sha384
  | SHA_512 => FIPS180.sha512
  end.

End Crypto.

Declare Scope js_scope.
Delimit Scope js_scope with js.
Infix "+" := JS.plus : js_scope.

(* ================================================================== *)
(** * src/lib/blockchain *)

Module Blockchain.
Import Async.
Local Open Scope string_scope.
Local Open Scope list_scope.
Local Open Scope async_scope.

(** [IBlock].  The field [hash] is declared optional in the source because
    [createBlock] fills it in one statement after the object literal; every
    block that leaves [createBlock], and the genesis template, carries a
    string, which is what the non-null assertions [hash!] rely on. *)
Record IBlock := {
  index : Z;
  timestamp : Z;
  transaction : string;
  previousHash : string;
  hash : string;
  nonce : Z;
  duration : float
}.

(** [{ ...block, duration: d }]. *)
Definition with_duration (block : IBlock) (d : float) : IBlock :=
  {| index := index block; timestamp := timestamp block;
     transaction := transaction block; previousHash := previousHash block;
     hash := hash block; nonce := nonce block; duration := d |}.

(** One entry of the report of [validateChain]. *)
Record Verdict := { blockId : Z; ok : bool }.

(** The readings of the clocks during one call: [Date.now()] (or
    [DateTime.utc().toMillis()]), and [performance.now()] before and after
    the mining. *)
Record Timing := { wall_clock : Z; started : float; finished : float }.

(** The arrays of blocks that exist, addressed by their position.  Only
    [addBlock] hands an array back to its caller, so it alone is stated over
    the store; the other functions read the array they are given. *)
Definition ArrayRef : Type := nat.
Definition Store : Type := list (list IBlock).

Definition deref (store : Store) (r : ArrayRef) : option (list IBlock) :=
  nth_error store r.

(** An array literal: a new array, at an address not used before. *)
Definition alloc (store : Store) (a : list IBlock) : ArrayRef * Store :=
  (List.length store, store ++ [a]).

Section Engine.
Variable subtle_digest : Crypto.SupportedAlgorithm -> list byte -> list byte.

(** [createBlock(algorithm, index, timestamp, transaction, previousHash,
    nonce = 0)]. *)
Definition createBlock (algorithm : Crypto.SupportedAlgorithm)
    (index timestamp : Z) (transaction previousHash : string)
    (nonce : option Z) : Outcome IBlock :=
  let nonce := match nonce with Some n => n | None => 0 end in
  h <- Crypto.hash subtle_digest (Some algorithm)
         (Some (JS.String_ (JS.Num index + JS.Num timestamp + JS.Str transaction
                            + JS.Str previousHash + JS.Num nonce)%js)) None ;;
  ret (JS.Object_freeze
         {| index := index; timestamp := timestamp; transaction := transaction;
            previousHash := previousHash; hash := h; nonce := nonce;
            duration := 0%float |}).

(** [mineBlock(block, algorithm, difficulty)]; [fuel] bounds the depth of
    the recursion. *)
Fixpoint mineBlock (fuel : nat) (block : IBlock)
    (algorithm : Crypto.SupportedAlgorithm) (difficulty : nat)
  : Outcome IBlock :=
  match fuel with
  | O => OutOfFuel []
  | S fuel' =>
      let target := JS.repeat "0" difficulty in
      if JS.startsWith (hash block) target then ret block
      else
        newBlock <- createBlock algorithm (index block) (timestamp block)
                      (transaction block) (previousHash block)
                      (Some (JS.add (nonce block) 1)) ;;
        mineBlock fuel' newBlock algorithm difficulty
  end.

(** [createGenesisBlock(algorithm, difficulty)]. *)
Definition createGenesisBlock (fuel : nat) (t : Timing)
    (algorithm : Crypto.SupportedAlgorithm) (difficulty : nat)
  : Outcome IBlock :=
  let template :=
    {| index := 0; timestamp := wall_clock t; transaction := "Genesis Block";
       previousHash := "0"; nonce := 0; hash := ""; duration := 0%float |} in
  let start := started t in
  block <- mineBlock fuel (JS.Object_freeze template) algorithm difficulty ;;
  ret (JS.Object_freeze (with_duration block (finished t - start)%float)).

(** [addBlock(chain, transaction, algorithm, difficulty)]. *)
Definition addBlock (fuel : nat) (t : Timing) (store : Store)
    (chain : ArrayRef) (transaction : string)
    (algorithm : Crypto.SupportedAlgorithm) (difficulty : nat)
  : Outcome (ArrayRef * Store) :=
  match deref store chain with
  | None =>
      throw (TypeError "Cannot read properties of undefined (reading 'length')")
  | Some blocks =>
      match JS.Array_get blocks (Z.of_nat (List.length blocks) - 1) with
      | None =>
          throw (TypeError "Cannot read properties of undefined (reading 'index')")
      | Some previousBlock =>
          let newIndex := JS.add (index previousBlock) 1 in
          let timestamp := wall_clock t in
          let start := started t in
          templateBlock <- createBlock algorithm newIndex timestamp transaction
                             (hash previousBlock) None ;;
          minedBlock <- mineBlock fuel templateBlock algorithm difficulty ;;
          ret (alloc store
                 (blocks ++ [JS.Object_freeze
                               (with_duration minedBlock
                                  (finished t - start)%float)]))
      end
  end.

(** One turn of the loop of [validateChain] (lines 138 to 172): the flag
    [isBroken] and the report after it. *)
Definition validate_turn (algorithm : Crypto.SupportedAlgorithm)
    (chain : list IBlock) (i : nat) (isBroken : bool) (report : list Verdict)
  : Outcome (bool * list Verdict) :=
  match JS.Array_get chain (Z.of_nat i), JS.Array_get chain (Z.of_nat i - 1) with
  | Some currentBlock, Some previousBlock =>
      if isBroken
      then ret (isBroken, report ++ [{| blockId := index currentBlock; ok := false |}])
      else
        computed <- Crypto.hash subtle_digest (Some algorithm)
                      (Some (JS.String_ (JS.Num (index currentBlock)
                                         + JS.Num (timestamp currentBlock)
                                         + JS.Str (transaction currentBlock)
                                         + JS.Str (previousHash currentBlock)
                                         + JS.Num (nonce currentBlock))%js))
                      None ;;
        if negb (String.eqb (hash currentBlock) computed)
        then ret (true, report ++ [{| blockId := index currentBlock; ok := false |}])
        else if negb (String.eqb (previousHash currentBlock) (hash previousBlock))
        then ret (true, report ++ [{| blockId := index currentBlock; ok := false |}])
        else ret (isBroken, report ++ [{| blockId := index currentBlock; ok := true |}])
  | _, _ =>
      throw (TypeError "Cannot read properties of undefined (reading 'index')")
  end.

(** The loop [for (let i = 1; i < chain.length; i++)], with [turns] turns
    left. *)
Fixpoint validate_loop (turns : nat) (algorithm : Crypto.SupportedAlgorithm)
    (chain : list IBlock) (i : nat) (isBroken : bool) (report : list Verdict)
  : Outcome (list Verdict) :=
  match turns with
  | O => ret report
  | S turns' =>
      st <- validate_turn algorithm chain i isBroken report ;;
      validate_loop turns' algorithm chain (S i) (fst st) (snd st)
  end.

(** [validateChain(algorithm, chain)]. *)
Definition validateChain (algorithm : Crypto.SupportedAlgorithm)
    (chain : list IBlock) : Outcome (list Verdict) :=
  let report := [] in
  if (List.length chain =? 0)%nat then ret report
  else
    match JS.Array_get chain 0 with
    | None =>
        throw (TypeError "Cannot read properties of undefined (reading 'index')")
    | Some first =>
        let report := report ++ [{| blockId := index first; ok := true |}] in
        validate_loop (List.length chain - 1) algorithm chain 1 false report
    end.

End Engine.
End Blockchain.

Import Async Blockchain.
Local Open Scope string_scope.
Local Open Scope list_scope.

(* ================================================================== *)
(** * Vocabulary of the statements *)

Module Vocabulary.
Section WithDigest.
Variable subtle_digest : Crypto.SupportedAlgorithm -> list byte -> list byte.

(** The string that [createBlock] and [validateChain] hand to [hash]. *)
Definition content (index timestamp : Z) (transaction previousHash : string)
    (nonce : Z) : string :=
  JS.String_ (JS.Num index + JS.Num timestamp + JS.Str transaction
              + JS.Str previousHash + JS.Num nonce)%js.

Definition content_of (block : IBlock) : string :=
  content (index block) (timestamp block) (transaction block)
    (previousHash block) (nonce block).

(** What the specification writes for the same string: the fields one after
    the other, each in its own decimal or plain form. *)
Definition fields_concatenated (index timestamp : Z)
    (transaction previousHash : string) (nonce : Z) : string :=
  (JS.Number_toString index ++ JS.Number_toString timestamp ++ transaction
   ++ previousHash ++ JS.Number_toString nonce)%string.

(** The value and the events of a successful [hash(algorithm, data)]. *)
Definition hexdigest (algorithm : Crypto.SupportedAlgorithm) (data : string)
  : string :=
  Crypto.to_hex (subtle_digest algorithm (JS.TextEncoder_encode data)).

Definition hash_events (algorithm : Crypto.SupportedAlgorithm) (data : string)
  : list Event :=
  match algorithm with
  | Crypto.SHA_1 => [ConsoleWarn Crypto.sha1_warning]
  | _ => []
  end ++ [SubtleDigest (Crypto.algorithm_name algorithm)
                       (JS.TextEncoder_encode data)].

(** The block [createBlock] builds from the fields of [block] and a nonce. *)
Definition rehash (algorithm : Crypto.SupportedAlgorithm) (block : IBlock)
    (nonce : Z) : IBlock :=
  {| index := index block; timestamp := timestamp block;
     transaction := transaction block; previousHash := previousHash block;
     hash := hexdigest algorithm
               (content (index block) (timestamp block) (transaction block)
                  (previousHash block) nonce);
     nonce := nonce; duration := 0%float |}.

(** The template that [addBlock] has [createBlock] build, and mines. *)
Definition template_of (algorithm : Crypto.SupportedAlgorithm) (t : Timing)
    (previousBlock : IBlock) (transaction : string) : IBlock :=
  {| index := JS.add (index previousBlock) 1; timestamp := wall_clock t;
     transaction := transaction; previousHash := hash previousBlock;
     hash := hexdigest algorithm
               (content (JS.add (index previousBlock) 1) (wall_clock t)
                  transaction (hash previousBlock) 0);
     nonce := 0; duration := 0%float |}.

(** The nonce after [k] attempts: [nonce + 1], [k] times over. *)
Definition nonce_after (nonce : Z) (k : nat) : Z :=
  Nat.iter k (fun nonce => JS.add nonce 1) nonce.

(** The block that [mineBlock] looks at in its call number [k], counted
    from 0: the input itself, then one new block per attempt. *)
Definition candidate (algorithm : Crypto.SupportedAlgorithm) (block : IBlock)
    (k : nat) : IBlock :=
  match k with
  | O => block
  | S _ => rehash algorithm block (nonce_after (nonce block) k)
  end.

(** The difficulty predicate, on the candidate number [k]. *)
Definition meets (algorithm : Crypto.SupportedAlgorithm) (difficulty : nat)
    (block : IBlock) (k : nat) : bool :=
  JS.startsWith (hash (candidate algorithm block k)) (JS.repeat "0" difficulty).

(** The platform calls of the first [n] attempts. *)
Definition search_log (algorithm : Crypto.SupportedAlgorithm) (block : IBlock)
    (n : nat) : list Event :=
  flat_map (fun k => hash_events algorithm
                       (content (index block) (timestamp block)
                          (transaction block) (previousHash block)
                          (nonce_after (nonce block) k)))
           (seq 1 n).

(** The two checks of [validateChain] on one block. *)
Definition integrity (algorithm : Crypto.SupportedAlgorithm)
    (currentBlock : IBlock) : bool :=
  String.eqb (hash currentBlock) (hexdigest algorithm (content_of currentBlock)).

Definition linkage (previousBlock currentBlock : IBlock) : bool :=
  String.eqb (previousHash currentBlock) (hash previousBlock).

Definition passes (algorithm : Crypto.SupportedAlgorithm)
    (previousBlock currentBlock : IBlock) : bool :=
  integrity algorithm currentBlock && linkage previousBlock currentBlock.

Definition verdict (currentBlock : IBlock) (good : bool) : Verdict :=
  {| blockId := index currentBlock; ok := good |}.

(** The loop of [validateChain] read along the list: the entries it pushes
    for the blocks [rest] that follow [previousBlock], its platform calls,
    and the flag it ends with. *)
Fixpoint verdicts (algorithm : Crypto.SupportedAlgorithm)
    (previousBlock : IBlock) (rest : list IBlock) (isBroken : bool)
  : list Verdict :=
  match rest with
  | [] => []
  | currentBlock :: rest' =>
      let good := negb isBroken && passes algorithm previousBlock currentBlock in
      verdict currentBlock good :: verdicts algorithm currentBlock rest' (negb good)
  end.

Fixpoint trace (algorithm : Crypto.SupportedAlgorithm)
    (previousBlock : IBlock) (rest : list IBlock) (isBroken : bool)
  : list Event :=
  match rest with
  | [] => []
  | currentBlock :: rest' =>
      let good := negb isBroken && passes algorithm previousBlock currentBlock in
      (if isBroken then [] else hash_events algorithm (content_of currentBlock))
      ++ trace algorithm currentBlock rest' (negb good)
  end.

Fixpoint broken_after (algorithm : Crypto.SupportedAlgorithm)
    (previousBlock : IBlock) (rest : list IBlock) (isBroken : bool) : bool :=
  match rest with
  | [] => isBroken
  | currentBlock :: rest' =>
      let good := negb isBroken && passes algorithm previousBlock currentBlock in
      broken_after algorithm currentBlock rest' (negb good)
  end.

End WithDigest.
End Vocabulary.

Import Vocabulary.

(* ================================================================== *)
(** * src/App.tsx: the functions of the component

    The component keeps [chain], [verification], [transaction] and
    [isCalculating] in React state.  What is embedded is the body of each
    function the component declares: a run of such a function is the list
    of the state setters it calls, in order, and the way it ends.  The
    arrays it creates live in the store of arrays; the platform calls of
    the engine are not repeated here.  React itself (rendering, the
    scheduling of effects) is not modelled: the flag an effect reads at its
    cancellation checks, the clocks and [Math.random] are inputs. *)

Module App.
Import Async.
Local Open Scope string_scope.
Local Open Scope list_scope.

(** The state setters. *)
Inductive Call :=
| setChain (chain : ArrayRef)
| setVerification (verification : list Verdict)
| setTransaction (transaction : string)
| setIsCalculating (isCalculating : bool).

(** How the run of a function ends: at its last statement, at a [return]
    behind a cancellation check, with a rejected promise, or not within
    the fuel given to the engine. *)
Inductive Ending :=
| Finished
| Abandoned
| Rejected (e : Exception)
| Starved.

Record Run := { calls : list Call; store_after : Store; ending : Ending }.

(** [{ ...block, transaction: tx }]. *)
Definition with_transaction (block : IBlock) (tx : string) : IBlock :=
  {| index := index block; timestamp := timestamp block; transaction := tx;
     previousHash := previousHash block; hash := hash block;
     nonce := nonce block; duration := duration block |}.

(** [a[i] = f(a[i])] for [i] inside of the array. *)
Fixpoint Array_update {A : Type} (a : list A) (i : nat) (f : A -> A) : list A :=
  match a, i with
  | [], _ => []
  | y :: a', O => f y :: a'
  | y :: a', S i' => y :: Array_update a' i' f
  end.

(** A [Map] from numbers to booleans, in insertion order. *)
Definition NumberMap : Type := list (Z * bool).

Fixpoint Map_set (map : NumberMap) (key : Z) (value : bool) : NumberMap :=
  match map with
  | [] => [(key, value)]
  | (k, v) :: map' =>
      if (k =? key)%Z then (k, value) :: map'
      else (k, v) :: Map_set map' key value
  end.

Fixpoint Map_get (map : NumberMap) (key : Z) : option bool :=
  match map with
  | [] => None
  | (k, v) :: map' => if (k =? key)%Z then Some v else Map_get map' key
  end.

(** [verificationMap]: the memo of lines 112 to 116. *)
Definition verificationMap (verification : list Verdict) : NumberMap :=
  fold_left (fun map v => Map_set map (blockId v) (ok v)) verification [].

(** [verificationMap.get(x.index) === true], the test that picks the green
    mark of the card of the block [x]. *)
Definition marked_valid (verification : list Verdict) (x : IBlock) : bool :=
  match Map_get (verificationMap verification) (index x) with
  | Some true => true
  | _ => false
  end.

Section Component.
Variable subtle_digest : Crypto.SupportedAlgorithm -> list byte -> list byte.

(** The loop of [recalculate], lines 73 to 78; [i] counts the cancellation
    checks made so far. *)
Fixpoint rebuild (fuel : nat) (clocks : nat -> Timing) (cancelled : nat -> bool)
    (algorithm : Crypto.SupportedAlgorithm) (difficulty : nat) (i : nat)
    (transactionsToKeep : list string) (store : Store) (currentChain : ArrayRef)
    (done : list Call) : Run :=
  match transactionsToKeep with
  | [] =>
      {| calls := done ++ [setIsCalculating false]; store_after := store;
         ending := Finished |}
  | transaction :: rest =>
      if cancelled i
      then {| calls := done; store_after := store; ending := Abandoned |}
      else
        match addBlock subtle_digest fuel (clocks i) store currentChain
                transaction algorithm difficulty with
        | Returned (currentChain', store') _ =>
            rebuild fuel clocks cancelled algorithm difficulty (S i) rest
              store' currentChain' (done ++ [setChain currentChain'])
        | Thrown e _ =>
            {| calls := done; store_after := store; ending := Rejected e |}
        | OutOfFuel _ =>
            {| calls := done; store_after := store; ending := Starved |}
        end
  end.

(** [recalculate], lines 57 to 81, run on the [chain], [algorithm] and
    [difficulty] of the render that started the effect.  [cancelled i] is
    the value of the flag at the check number [i], [clocks i] the clock
    readings of the engine call number [i]. *)
Definition recalculate (fuel : nat) (clocks : nat -> Timing)
    (cancelled : nat -> bool) (store : Store) (chain : ArrayRef)
    (algorithm : Crypto.SupportedAlgorithm) (difficulty : nat) : Run :=
  let done := [setIsCalculating true] in
  match deref store chain with
  | None =>
      {| calls := done; store_after := store;
         ending := Rejected
                     (TypeError "Cannot read properties of undefined (reading 'slice')") |}
  | Some blocks =>
      let transactionsToKeep := map transaction (skipn 1 blocks) in
      let (empty, store) := alloc store [] in
      let done := done ++ [setChain empty] in
      match createGenesisBlock subtle_digest fuel (clocks 0%nat) algorithm
              difficulty with
      | Returned genesisBlock _ =>
          if cancelled 0%nat
          then {| calls := done; store_after := store; ending := Abandoned |}
          else
            let (currentChain, store) := alloc store [genesisBlock] in
            rebuild fuel clocks cancelled algorithm difficulty 1 transactionsToKeep
              store currentChain (done ++ [setChain currentChain])
      | Thrown e _ =>
          {| calls := done; store_after := store; ending := Rejected e |}
      | OutOfFuel _ =>
          {| calls := done; store_after := store; ending := Starved |}
      end
  end.

(** [verify], lines 94 to 102; [isCancelled] is the value of the flag when
    [validateChain] has returned. *)
Definition verify (isCancelled : bool) (store : Store) (chain : ArrayRef)
    (algorithm : Crypto.SupportedAlgorithm) : Run :=
  let done := [setVerification []] in
  match deref store chain with
  | None =>
      {| calls := done; store_after := store;
         ending := Rejected
                     (TypeError "Cannot read properties of undefined (reading 'length')") |}
  | Some blocks =>
      match validateChain subtle_digest algorithm blocks with
      | Returned result _ =>
          {| calls := if negb isCancelled then done ++ [setVerification result]
                      else done;
             store_after := store; ending := Finished |}
      | Thrown e _ =>
          {| calls := done; store_after := store; ending := Rejected e |}
      | OutOfFuel _ =>
          {| calls := done; store_after := store; ending := Starved |}
      end
  end.

(** The handler [addBlock], lines 126 to 134. *)
Definition addBlock (fuel : nat) (t : Timing) (store : Store) (chain : ArrayRef)
    (transaction : string) (algorithm : Crypto.SupportedAlgorithm)
    (difficulty : nat) : Run :=
  let done := [setIsCalculating true] in
  match Blockchain.addBlock subtle_digest fuel t store chain transaction
          algorithm difficulty with
  | Returned (newChain, store') _ =>
      {| calls := done ++ [setChain newChain; setTransaction "";
                           setIsCalculating false];
         store_after := store'; ending := Finished |}
  | Thrown e _ =>
      {| calls := done; store_after := store; ending := Rejected e |}
  | OutOfFuel _ =>
      {| calls := done; store_after := store; ending := Starved |}
  end.

End Component.

(** The loop [while (chain[selectedBlock].index === 0)] of
    [randomlyBreakOne]; [draws n] is the value of
    [Math.floor(Math.random() * chain.length)] at its evaluation number
    [n], and [fuel] bounds the number of turns. *)
Fixpoint select (fuel : nat) (draws : nat -> nat) (n : nat)
    (blocks : list IBlock) (selectedBlock : nat) : Outcome nat :=
  match fuel with
  | O => OutOfFuel []
  | S fuel' =>
      match JS.Array_get blocks (Z.of_nat selectedBlock) with
      | None =>
          throw (TypeError "Cannot read properties of undefined (reading 'index')")
      | Some block =>
          if (index block =? 0)%Z
          then select fuel' draws (S n) blocks (draws n)
          else ret selectedBlock
      end
  end.

(** [randomlyBreakOne], lines 136 to 151.  [structuredClone] copies the
    array; the copy gets the broken block at the index that the loop has
    left, which is inside of the array, and goes to [setChain]. *)
Definition randomlyBreakOne (fuel : nat) (draws : nat -> nat) (store : Store)
    (chain : ArrayRef) : Run :=
  match deref store chain with
  | None =>
      {| calls := []; store_after := store;
         ending := Rejected
                     (TypeError "Cannot read properties of undefined (reading 'length')") |}
  | Some blocks =>
      match select fuel draws 1 blocks (draws 0%nat) with
      | Returned selectedBlock _ =>
          let chainCopy := blocks in
          let (chainCopy', store') :=
            alloc store
              (Array_update chainCopy selectedBlock
                 (fun block => with_transaction block "Oops! I broke this one")) in
          {| calls := [setChain chainCopy']; store_after := store';
             ending := Finished |}
      | Thrown e _ =>
          {| calls := []; store_after := store; ending := Rejected e |}
      | OutOfFuel _ =>
          {| calls := []; store_after := store; ending := Starved |}
      end
  end.

(** The argument of the last [setChain] in a list of calls: the chain that
    the component shows after them. *)
Fixpoint shown (calls : list Call) (before : option ArrayRef) : option ArrayRef :=
  match calls with
  | [] => before
  | setChain chain :: calls' => shown calls' (Some chain)
  | _ :: calls' => shown calls' before
  end.

(** The value of [isCalculating] after a list of calls. *)
Fixpoint calculating (calls : list Call) (before : bool) : bool :=
  match calls with
  | [] => before
  | setIsCalculating b :: calls' => calculating calls' b
  | _ :: calls' => calculating calls' before
  end.

End App.

(* ================================================================== *)
(** * Vocabulary of the further statements *)

Module Reading.
Section WithDigest.
Variable subtle_digest : Crypto.SupportedAlgorithm -> list byte -> list byte.

(** The template that [createGenesisBlock] mines. *)
Definition genesis_template_at (t : Timing) : IBlock :=
  {| index := 0; timestamp := wall_clock t; transaction := "Genesis Block";
     previousHash := "0"; hash := ""; nonce := 0; duration := 0%float |}.

(** Every block of [rest] passes both checks of [validateChain], the first
    against [previousBlock], each other against the block before it. *)
Fixpoint sound (algorithm : Crypto.SupportedAlgorithm)
    (previousBlock : IBlock) (rest : list IBlock) : bool :=
  match rest with
  | [] => true
  | currentBlock :: rest' =>
      passes subtle_digest algorithm previousBlock currentBlock
      && sound algorithm currentBlock rest'
  end.

(** Two blocks that differ at most in how their index and their timestamp
    share one sum, and in their duration. *)
Definition same_sum (b b' : IBlock) : Prop :=
  (index b + timestamp b = index b' + timestamp b')%Z /\
  transaction b = transaction b' /\ previousHash b = previousHash b' /\
  hash b = hash b' /\ nonce b = nonce b'.

(** The two characters that [hash] prints for a byte. *)
Definition hex_pair (b : byte) : string :=
  JS.padStart (JS.Number_toString16 (Byte.to_N b)) 2 "0".

(** Reading a printed byte back: the value of two hexadecimal digits. *)
Definition hex_digit_value (c : ascii) : N :=
  match String.index 0 (String c "") "0123456789abcdef" with
  | Some i => N.of_nat i
  | None => 0
  end.

Definition hex_pair_value (s : string) : N :=
  match s with
  | String hi (String lo _) => 16 * hex_digit_value hi + hex_digit_value lo
  | _ => 0
  end.

Definition is_lower_hex (c : ascii) : bool :=
  match String.index 0 (String c "") "0123456789abcdef" with
  | Some _ => true
  | None => false
  end.

End WithDigest.
End Reading.

Import Reading.

(* ================================================================== *)
(** * Example blocks, mined at difficulty 1 under SHA-256 *)

Module Examples.

Definition clock : Timing :=
  {| wall_clock := 1000; started := 1.5%float; finished := 4%float |}.

(** The template of [createGenesisBlock] at that time. *)
Definition genesis_template : IBlock :=
  {| index := 0; timestamp := 1000; transaction := "Genesis Block";
     previousHash := "0"; hash := ""; nonce := 0; duration := 0%float |}.

(** The chain they form. *)
Definition genesis : IBlock :=
  {| index := 0; timestamp := 1000; transaction := "Genesis Block";
     previousHash := "0";
     hash := "0bf82cfa114b148595a23a18c16e1c63d020d7e77c0486479937a3cd3a7a6776";
     nonce := 14; duration := 2.5%float |}.

Definition block1 : IBlock :=
  {| index := 1; timestamp := 1000; transaction := "tx1";
     previousHash := "0bf82cfa114b148595a23a18c16e1c63d020d7e77c0486479937a3cd3a7a6776";
     hash := "000ba75c3cf33ba68ceae1117538b1286fc2323a8bf77822d9df6849d09b7b2a";
     nonce := 10; duration := 2.5%float |}.

Definition block2 : IBlock :=
  {| index := 2; timestamp := 1000; transaction := "tx2";
     previousHash := "000ba75c3cf33ba68ceae1117538b1286fc2323a8bf77822d9df6849d09b7b2a";
     hash := "0c647a60dc20a431e4ebe48dbbe98e7f5d1670c72d6e3bdc989c8f0d96cf36df";
     nonce := 9; duration := 2.5%float |}.

(** [block1] after [randomlyBreakOne] of the application. *)
Definition block1_broken : IBlock :=
  {| index := 1; timestamp := 1000; transaction := "Oops! I broke this one";
     previousHash := "0bf82cfa114b148595a23a18c16e1c63d020d7e77c0486479937a3cd3a7a6776";
     hash := "000ba75c3cf33ba68ceae1117538b1286fc2323a8bf77822d9df6849d09b7b2a";
     nonce := 10; duration := 2.5%float |}.

(** [block1] with its index raised and its timestamp lowered by one. *)
Definition block1_shifted : IBlock :=
  {| index := 2; timestamp := 999; transaction := "tx1";
     previousHash := "0bf82cfa114b148595a23a18c16e1c63d020d7e77c0486479937a3cd3a7a6776";
     hash := "000ba75c3cf33ba68ceae1117538b1286fc2323a8bf77822d9df6849d09b7b2a";
     nonce := 10; duration := 2.5%float |}.

(** A block whose stored hash is not the digest of its content. *)
Definition forged : IBlock :=
  {| index := 1; timestamp := 1000; transaction := "tx1";
     previousHash := "0bf82cfa114b148595a23a18c16e1c63d020d7e77c0486479937a3cd3a7a6776";
     hash := "00";
     nonce := 0; duration := 0%float |}.


Definition far_block : IBlock :=
  {| index := 2 ^ 53; timestamp := 1000; transaction := "tx";
     previousHash := "0"; hash := "00"; nonce := 0; duration := 0%float |}.

End Examples.

(* ================================================================== *)
(** * Properties *)

Section Properties.
Variable subtle_digest : Crypto.SupportedAlgorithm -> list byte -> list byte.

Local Abbreviation hexdigest := (Vocabulary.hexdigest subtle_digest).
Local Abbreviation rehash := (Vocabulary.rehash subtle_digest).
Local Abbreviation candidate := (Vocabulary.candidate subtle_digest).
Local Abbreviation template_of := (Vocabulary.template_of subtle_digest).
Local Abbreviation meets := (Vocabulary.meets subtle_digest).
Local Abbreviation passes := (Vocabulary.passes subtle_digest).
Local Abbreviation integrity := (Vocabulary.integrity subtle_digest).
Local Abbreviation verdicts := (Vocabulary.verdicts subtle_digest).
Local Abbreviation trace := (Vocabulary.trace subtle_digest).
Local Abbreviation broken_after := (Vocabulary.broken_after subtle_digest).
Local Abbreviation createBlock := (Blockchain.createBlock subtle_digest).
Local Abbreviation mineBlock := (Blockchain.mineBlock subtle_digest).
Local Abbreviation addBlock := (Blockchain.addBlock subtle_digest).
Local Abbreviation validateChain := (Blockchain.validateChain subtle_digest).
Local Abbreviation createGenesisBlock := (Blockchain.createGenesisBlock subtle_digest).
Local Abbreviation sound := (Reading.sound subtle_digest).

(** ** Outcomes *)

Lemma after_nil {A : Type} (o : Outcome A) : after [] o = o.
Proof. destruct o; reflexivity. Qed.

Lemma after_after {A : Type} (l1 l2 : list Event) (o : Outcome A) :
  after l1 (after l2 o) = after (l1 ++ l2) o.
Proof. destruct o; simpl; rewrite app_assoc; reflexivity. Qed.

Lemma bind_returned {A B : Type} (a : A) (l : list Event) (k : A -> Outcome B) :
  bind (Returned a l) k = after l (k a).
Proof. reflexivity. Qed.

(** ** Numbers *)

(** Up to 2^53 every integer is a number, and a sum that stays there is
    exact. *)
Lemma round_safe (x : Z) : (Z.abs x <= 2 ^ 53)%Z -> JS.round x = x.
Proof.
  intros Hx. unfold JS.round.
  destruct (Z.ltb_spec (Z.abs x) (2 ^ 53)) as [_ | Hge]; [reflexivity|].
  change (2 ^ 53)%Z with 9007199254740992%Z in Hx, Hge.
  assert (Hcases : x = 9007199254740992%Z \/ x = (- 9007199254740992)%Z) by lia.
  destruct Hcases as [-> | ->]; vm_compute; reflexivity.
Qed.

Lemma add_safe (a b : Z) :
  (- 2 ^ 53 <= a + b <= 2 ^ 53)%Z -> JS.add a b = (a + b)%Z.
Proof.
  intros H. apply round_safe.
  change (2 ^ 53)%Z with 9007199254740992%Z in *. lia.
Qed.

(** At 2^53 the sum with 1 is the number itself. *)
Lemma add_stalls : JS.add (2 ^ 53) 1 = (2 ^ 53)%Z.
Proof. vm_compute. reflexivity. Qed.

Lemma nonce_after_succ (n : Z) (k : nat) :
  nonce_after n (S k) = JS.add (nonce_after n k) 1.
Proof. reflexivity. Qed.

Lemma nonce_after_shift (n : Z) (k : nat) :
  nonce_after (JS.add n 1) k = nonce_after n (S k).
Proof. unfold nonce_after. rewrite Nat.iter_succ_r. reflexivity. Qed.



(** Counting from 0 in steps of 1 stops at 2^53. *)
Lemma add_capped (k : nat) :
  JS.add (Z.min (Z.of_nat k) (2 ^ 53)) 1 = Z.min (Z.of_nat (S k)) (2 ^ 53).
Proof.
  destruct (Z.lt_ge_cases (Z.of_nat k) (2 ^ 53)) as [Hlt | Hge].
  - rewrite Z.min_l, add_safe, Z.min_l by lia. lia.
  - rewrite !Z.min_r by lia. apply add_stalls.
Qed.

Lemma nonce_after_zero (k : nat) :
  nonce_after 0 k = Z.min (Z.of_nat k) (2 ^ 53).
Proof.
  induction k as [|k IH]; [reflexivity|].
  rewrite nonce_after_succ, IH. apply add_capped.
Qed.

(** ** Strings *)

Lemma decimal_nonempty (n : Z) : JS.decimal n <> "".
Proof.
  unfold JS.decimal.
  destruct n as [|p|p]; simpl; try discriminate.
  destruct (Pos.to_uint p); discriminate.
Qed.

Lemma append_nonempty (s s' : string) : s <> "" -> (s ++ s')%string <> "".
Proof. destruct s; [congruence | discriminate]. Qed.

Lemma Number_toString_nonempty (n : Z) : JS.Number_toString n <> "".
Proof.
  unfold JS.Number_toString.
  destruct (Z.abs n <? 2 ^ 53)%Z; [apply decimal_nonempty|].
  destruct (JS.shortest _ _ _ _) as [[k [s e]]|]; [|apply decimal_nonempty].
  destruct (n <? 0)%Z; [discriminate|].
  change ("" ++ ?x)%string with x.
  destruct (k + e <=? 21)%Z; [apply append_nonempty, decimal_nonempty|].
  pose proof (decimal_nonempty s) as Hs.
  destruct (JS.decimal s) as [|c [|c' digits]]; [congruence | discriminate ..].
Qed.

Lemma ToString_number_nonempty (x : Z) : JS.ToString (JS.number x) <> "".
Proof.
  unfold JS.number.
  destruct (JS.MAX_VALUE <? Z.abs (JS.round x))%Z.
  - destruct (JS.round x <? 0)%Z; discriminate.
  - apply Number_toString_nonempty.
Qed.

Lemma plus_Str (x : JS.Value) (s : string) :
  JS.plus x (JS.Str s) = JS.Str (JS.ToString x ++ s).
Proof. destruct x; reflexivity. Qed.

Lemma content_explicit i t tx p n :
  content i t tx p n
  = (((JS.ToString (JS.number (i + t)) ++ tx) ++ p)
     ++ JS.Number_toString n)%string.
Proof.
  unfold content.
  change (JS.Num i + JS.Num t)%js with (JS.number (i + t)).
  rewrite !plus_Str. reflexivity.
Qed.

Lemma content_nonempty i t tx p n : content i t tx p n <> "".
Proof.
  rewrite content_explicit.
  do 3 apply append_nonempty. apply ToString_number_nonempty.
Qed.

Lemma startsWith_empty (s : string) : JS.startsWith s "" = true.
Proof. destruct s; reflexivity. Qed.

(** ** [hash] and [createBlock] *)

Lemma hash_hex (algorithm : Crypto.SupportedAlgorithm) (data : string) :
  data <> "" ->
  Crypto.hash subtle_digest (Some algorithm) (Some data) None
  = Returned (hexdigest algorithm data) (hash_events algorithm data).
Proof.
  intros Hdata. unfold Crypto.hash. cbn [option_map].
  replace (Crypto.missing (Some (Crypto.algorithm_name algorithm))) with false
    by (destruct algorithm; reflexivity).
  replace (Crypto.missing (Some data)) with false
    by (destruct data; [congruence | reflexivity]).
  destruct algorithm; reflexivity.
Qed.

Lemma createBlock_returns algorithm i t tx p (n : option Z) :
  createBlock algorithm i t tx p n
  = Returned
      {| index := i; timestamp := t; transaction := tx; previousHash := p;
         hash := hexdigest algorithm
                   (content i t tx p (match n with Some n => n | None => 0 end));
         nonce := match n with Some n => n | None => 0 end;
         duration := 0%float |}
      (hash_events algorithm
         (content i t tx p (match n with Some n => n | None => 0 end))).
Proof.
  unfold Blockchain.createBlock.
  change (JS.String_ (JS.Num i + JS.Num t + JS.Str tx + JS.Str p
                      + JS.Num match n with Some n0 => n0 | None => 0 end)%js)
    with (content i t tx p match n with Some n0 => n0 | None => 0 end).
  rewrite hash_hex by apply content_nonempty.
  simpl. rewrite app_nil_r. reflexivity.
Qed.

(** ** [mineBlock] *)

Lemma mineBlock_unfold fuel block algorithm difficulty :
  mineBlock (S fuel) block algorithm difficulty
  = if meets algorithm difficulty block 0 then Returned block []
    else after (search_log algorithm block 1)
           (mineBlock fuel (candidate algorithm block 1) algorithm difficulty).
Proof.
  unfold Vocabulary.meets. simpl Vocabulary.candidate.
  cbn [Blockchain.mineBlock].
  destruct (JS.startsWith (hash block) (JS.repeat "0" difficulty)); [reflexivity|].
  rewrite createBlock_returns, bind_returned.
  unfold search_log. simpl. rewrite app_nil_r. reflexivity.
Qed.

(** C7. With [difficulty = 0] the target is the empty string, which every
    hash starts with: [mineBlock] returns the block it was given, in its
    first call, having built no candidate and asked for no digest. *)
Theorem mineBlock_difficulty_zero :
  forall (fuel : nat) (block : IBlock) (algorithm : Crypto.SupportedAlgorithm),
    mineBlock (S fuel) block algorithm 0 = Returned block [].
Proof.
  intros fuel block algorithm. cbn [Blockchain.mineBlock JS.repeat].
  rewrite startsWith_empty. reflexivity.
Qed.

(** C10. [mineBlock] tests the hash stored in its argument and never
    recomputes it: when the stored hash starts with [difficulty] zeros, the
    argument itself is the result, with no digest asked for, whatever the
    relation between that hash and the content of the block. *)
Theorem mineBlock_trusts_stored_hash :
  forall (fuel : nat) (block : IBlock) (algorithm : Crypto.SupportedAlgorithm)
         (difficulty : nat),
    JS.startsWith (hash block) (JS.repeat "0" difficulty) = true ->
    mineBlock (S fuel) block algorithm difficulty = Returned block [].
Proof.
  intros fuel block algorithm difficulty Hstored.
  cbn [Blockchain.mineBlock]. rewrite Hstored. reflexivity.
Qed.

Lemma candidate_shift algorithm block k :
  candidate algorithm (candidate algorithm block 1) k
  = candidate algorithm block (S k).
Proof.
  destruct k as [|k]; [reflexivity|].
  unfold Vocabulary.candidate, Vocabulary.rehash;
    cbn [index timestamp transaction previousHash nonce].
  change (nonce_after (nonce block) 1) with (JS.add (nonce block) 1).
  rewrite nonce_after_shift. reflexivity.
Qed.

Lemma meets_shift algorithm difficulty block k :
  meets algorithm difficulty (candidate algorithm block 1) k
  = meets algorithm difficulty block (S k).
Proof. unfold Vocabulary.meets. rewrite candidate_shift. reflexivity. Qed.

Lemma search_log_shift algorithm block n :
  search_log algorithm block (S n)
  = search_log algorithm block 1
    ++ search_log algorithm (candidate algorithm block 1) n.
Proof.
  unfold search_log. cbn [seq flat_map]. rewrite app_nil_r. f_equal.
  rewrite <- seq_shift, flat_map_concat_map, map_map, <- flat_map_concat_map.
  apply flat_map_ext. intros k.
  cbn [Vocabulary.candidate Vocabulary.rehash index timestamp transaction previousHash nonce].
  change (nonce_after (nonce block) 1) with (JS.add (nonce block) 1).
  rewrite nonce_after_shift. reflexivity.
Qed.



(** As long as no candidate meets the target, each call of [mineBlock]
    makes one attempt and goes on with the next candidate. *)
Lemma mineBlock_skip algorithm difficulty k :
  forall fuel block,
    (forall j, (j < k)%nat -> meets algorithm difficulty block j = false) ->
    (k <= fuel)%nat ->
    mineBlock fuel block algorithm difficulty
    = after (search_log algorithm block k)
        (mineBlock (fuel - k) (candidate algorithm block k) algorithm difficulty).
Proof.
  induction k as [|k IH]; intros fuel block Hmiss Hfuel.
  - rewrite Nat.sub_0_r. cbn. rewrite after_nil. reflexivity.
  - destruct fuel as [|fuel]; [lia|].
    rewrite mineBlock_unfold, (Hmiss 0%nat) by lia.
    rewrite (IH fuel (candidate algorithm block 1)).
    + rewrite after_after, candidate_shift, <- search_log_shift. reflexivity.
    + intros j Hj. rewrite meets_shift. apply Hmiss. lia.
    + lia.
Qed.

Lemma mineBlock_found algorithm difficulty n fuel block :
  (forall j, (j < n)%nat -> meets algorithm difficulty block j = false) ->
  meets algorithm difficulty block n = true ->
  (n < fuel)%nat ->
  mineBlock fuel block algorithm difficulty
  = Returned (candidate algorithm block n) (search_log algorithm block n).
Proof.
  intros Hmiss Hmeet Hfuel.
  rewrite (mineBlock_skip algorithm difficulty n) by (assumption || lia).
  destruct (fuel - n)%nat as [|rest] eqn:E; [lia|].
  rewrite mineBlock_unfold.
  replace (meets algorithm difficulty (candidate algorithm block n) 0) with true
    by (symmetry; exact Hmeet).
  cbn. rewrite app_nil_r. reflexivity.
Qed.

Lemma mineBlock_exhausted algorithm difficulty fuel block :
  (forall j, (j < fuel)%nat -> meets algorithm difficulty block j = false) ->
  mineBlock fuel block algorithm difficulty
  = OutOfFuel (search_log algorithm block fuel).
Proof.
  intros Hmiss.
  rewrite (mineBlock_skip algorithm difficulty fuel) by (assumption || lia).
  rewrite Nat.sub_diag. cbn. rewrite app_nil_r. reflexivity.
Qed.

(** The first candidate that meets the target, if one does within [fuel]
    calls. *)
Lemma first_meeting (p : nat -> bool) (fuel : nat) :
  exists n, (n <= fuel)%nat /\
    (forall j, (j < n)%nat -> p j = false) /\
    (n = fuel \/ p n = true).
Proof.
  induction fuel as [|fuel [n (Hle & Hmiss & Hend)]].
  - exists 0%nat. repeat split; [lia | intros j Hj; lia | now left].
  - destruct Hend as [-> | Hmeet].
    + destruct (p fuel) eqn:E.
      * exists fuel. repeat split; [lia | assumption | now right].
      * exists (S fuel). repeat split; [lia | | now left].
        intros j Hj. destruct (Nat.eq_dec j fuel) as [-> | Hne];
          [assumption | apply Hmiss; lia].
    + exists n. repeat split; [lia | assumption | now right].
Qed.


Lemma candidate_nonce algorithm block k :
  nonce (candidate algorithm block k) = nonce_after (nonce block) k.
Proof. destruct k; reflexivity. Qed.




(** C9. [hash] throws its error "Missing required parameters." exactly when
    the algorithm is left out (an empty name is no [SupportedAlgorithm]) or
    the data is left out or is the empty string, and then before any call
    of the platform; on every other input it returns a digest. *)
Theorem hash_rejects_exactly_missing_parameters :
  forall (algorithm : option Crypto.SupportedAlgorithm) (data : option string)
         (format : option Crypto.SupportedOutputFormat),
    (Crypto.hash subtle_digest algorithm data format
     = Thrown (Error "Missing required parameters.") []
     <-> algorithm = None \/ data = None \/ data = Some "") /\
    (~ (algorithm = None \/ data = None \/ data = Some "") ->
     exists digest log,
       Crypto.hash subtle_digest algorithm data format = Returned digest log).
Proof.
  intros algorithm data format.
  destruct algorithm as [[]|], data as [[|c d]|], format as [[|]|];
    (split;
     [ split;
       [ intros H; try discriminate H; auto
       | intros [H | [H | H]]; try discriminate H; reflexivity ]
     | intros H; try (exfalso; apply H; auto; fail);
       eexists; eexists; reflexivity ]).
Qed.

(** ** [addBlock] *)

(** C4. On an empty chain [chain[chain.length - 1]] is [undefined], and
    reading its [index] throws: [addBlock] fails with that [TypeError]
    (the EmptyChain condition of the specification) before it creates or
    mines anything, whatever the fuel, and returns no chain. *)
Theorem addBlock_on_empty_chain_fails :
  forall (fuel : nat) (t : Timing) (store : Store) (chain : ArrayRef)
         (transaction : string) (algorithm : Crypto.SupportedAlgorithm)
         (difficulty : nat),
    deref store chain = Some [] ->
    addBlock fuel t store chain transaction algorithm difficulty
    = Thrown (TypeError "Cannot read properties of undefined (reading 'index')") [].
Proof.
  intros fuel t store chain transaction algorithm difficulty Hempty.
  unfold Blockchain.addBlock. rewrite Hempty. reflexivity.
Qed.

Lemma Array_get_last {A : Type} (front : list A) (x : A) :
  JS.Array_get (front ++ [x]) (Z.of_nat (List.length (front ++ [x])) - 1) = Some x.
Proof.
  unfold JS.Array_get. rewrite length_app. cbn [List.length].
  replace (Z.of_nat (List.length front + 1) - 1)%Z
    with (Z.of_nat (List.length front)) by lia.
  destruct (Z.ltb_spec (Z.of_nat (List.length front)) 0); [lia|].
  rewrite Nat2Z.id, nth_error_app2, Nat.sub_diag by lia. reflexivity.
Qed.

Lemma deref_alloc_old store a r x :
  deref store r = Some x -> deref (snd (alloc store a)) r = Some x.
Proof.
  unfold deref, alloc. cbn [snd]. intros H.
  rewrite nth_error_app1; [exact H|].
  apply nth_error_Some. congruence.
Qed.

Lemma deref_alloc_new store a :
  deref (snd (alloc store a)) (fst (alloc store a)) = Some a
  /\ deref store (fst (alloc store a)) = None.
Proof.
  unfold deref, alloc. cbn [fst snd]. split.
  - rewrite nth_error_app2, Nat.sub_diag by lia. reflexivity.
  - apply nth_error_None. lia.
Qed.

Lemma template_of_created algorithm t previousBlock transaction :
  createBlock algorithm (JS.add (index previousBlock) 1) (wall_clock t)
    transaction (hash previousBlock) None
  = Returned (template_of algorithm t previousBlock transaction)
      (hash_events algorithm
         (content_of (template_of algorithm t previousBlock transaction))).
Proof. apply createBlock_returns. Qed.

Lemma addBlock_unfold fuel t store chain front previousBlock transaction
    algorithm difficulty :
  deref store chain = Some (front ++ [previousBlock]) ->
  addBlock fuel t store chain transaction algorithm difficulty
  = after (hash_events algorithm
             (content (JS.add (index previousBlock) 1) (wall_clock t)
                transaction (hash previousBlock) 0))
      (bind (mineBlock fuel (template_of algorithm t previousBlock transaction)
               algorithm difficulty)
         (fun minedBlock =>
            ret (alloc store
                   ((front ++ [previousBlock])
                    ++ [with_duration minedBlock (finished t - started t)%float])))).
Proof.
  intros Hchain. unfold Blockchain.addBlock.
  rewrite Hchain, Array_get_last, createBlock_returns, bind_returned.
  reflexivity.
Qed.


(** ** [validateChain] *)

Lemma Array_get_at {A : Type} (pre : list A) (x : A) (post : list A) :
  JS.Array_get (pre ++ x :: post) (Z.of_nat (List.length pre)) = Some x.
Proof.
  unfold JS.Array_get.
  destruct (Z.ltb_spec (Z.of_nat (List.length pre)) 0); [lia|].
  rewrite Nat2Z.id, nth_error_app2, Nat.sub_diag by lia. reflexivity.
Qed.

Lemma validate_turn_at algorithm pre previousBlock currentBlock post isBroken report :
  validate_turn subtle_digest algorithm
    (pre ++ previousBlock :: currentBlock :: post) (S (List.length pre))
    isBroken report
  = Returned
      (negb (negb isBroken && passes algorithm previousBlock currentBlock),
       report ++ [verdict currentBlock
                    (negb isBroken && passes algorithm previousBlock currentBlock)])
      (if isBroken then [] else hash_events algorithm (content_of currentBlock)).
Proof.
  unfold validate_turn.
  replace (Z.of_nat (S (List.length pre)) - 1)%Z
    with (Z.of_nat (List.length pre)) by lia.
  rewrite Array_get_at.
  replace (pre ++ previousBlock :: currentBlock :: post)
    with ((pre ++ [previousBlock]) ++ currentBlock :: post)
    by (rewrite <- app_assoc; reflexivity).
  replace (S (List.length pre)) with (List.length (pre ++ [previousBlock]))
    by (rewrite length_app; cbn; lia).
  rewrite Array_get_at.
  destruct isBroken; [reflexivity|].
  change (JS.String_ _) with (content_of currentBlock).
  rewrite hash_hex by apply content_nonempty.
  rewrite bind_returned.
  unfold Vocabulary.passes, Vocabulary.integrity, linkage, verdict.
  destruct (hash currentBlock =? hexdigest algorithm (content_of currentBlock))%string;
    [destruct (previousHash currentBlock =? hash previousBlock)%string|];
    cbn; rewrite app_nil_r; reflexivity.
Qed.

Lemma validate_loop_walk algorithm :
  forall rest pre previousBlock isBroken report,
    validate_loop subtle_digest (List.length rest) algorithm
      (pre ++ previousBlock :: rest) (S (List.length pre)) isBroken report
    = Returned (report ++ verdicts algorithm previousBlock rest isBroken)
        (trace algorithm previousBlock rest isBroken).
Proof.
  induction rest as [|currentBlock rest IH]; intros pre previousBlock isBroken report.
  - cbn. rewrite app_nil_r. reflexivity.
  - cbn [List.length validate_loop].
    rewrite validate_turn_at, bind_returned. cbn [fst snd].
    replace (pre ++ previousBlock :: currentBlock :: rest)
      with ((pre ++ [previousBlock]) ++ currentBlock :: rest)
      by (rewrite <- app_assoc; reflexivity).
    replace (S (S (List.length pre))) with (S (List.length (pre ++ [previousBlock])))
      by (rewrite length_app; cbn; lia).
    rewrite IH. cbn [after Vocabulary.verdicts Vocabulary.trace].
    rewrite <- app_assoc. reflexivity.
Qed.

(** [validateChain] always returns: the entry of the first block, then the
    entries of the walk along the others. *)
Lemma validateChain_walk algorithm first rest :
  validateChain algorithm (first :: rest)
  = Returned (verdict first true :: verdicts algorithm first rest false)
      (trace algorithm first rest false).
Proof.
  unfold Blockchain.validateChain. cbn [List.length Nat.eqb].
  change (JS.Array_get (first :: rest) 0) with (Some first).
  replace (S (List.length rest) - 1)%nat with (List.length rest) by lia.
  exact (validate_loop_walk algorithm rest [] first false ([] ++ [verdict first true])).
Qed.

Lemma verdicts_length algorithm rest :
  forall previousBlock isBroken,
    List.length (verdicts algorithm previousBlock rest isBroken) = List.length rest.
Proof. induction rest; intros; cbn; [reflexivity | f_equal; apply IHrest]. Qed.

Lemma verdicts_firstn algorithm rest :
  forall m previousBlock isBroken,
    firstn m (verdicts algorithm previousBlock rest isBroken)
    = verdicts algorithm previousBlock (firstn m rest) isBroken.
Proof.
  induction rest as [|b rest IH]; intros [|m] previousBlock isBroken; cbn;
    try reflexivity.
  f_equal. apply IH.
Qed.

Lemma verdicts_broken algorithm rest :
  forall previousBlock,
    verdicts algorithm previousBlock rest true = map (fun b => verdict b false) rest.
Proof. induction rest; intros; cbn; [reflexivity | f_equal; apply IHrest]. Qed.

Lemma trace_broken algorithm rest :
  forall previousBlock, trace algorithm previousBlock rest true = [].
Proof. induction rest; intros; cbn; [reflexivity | apply IHrest]. Qed.

Lemma last_cons {A : Type} (l : list A) :
  forall a d, last (a :: l) d = last l a.
Proof.
  induction l as [|b l IH]; intros a d; [reflexivity|].
  change (last (a :: b :: l) d) with (last (b :: l) d).
  rewrite (IH b d), (IH b a). reflexivity.
Qed.

Lemma verdicts_app algorithm r1 r2 :
  forall previousBlock isBroken,
    verdicts algorithm previousBlock (r1 ++ r2) isBroken
    = verdicts algorithm previousBlock r1 isBroken
      ++ verdicts algorithm (last r1 previousBlock) r2
           (broken_after algorithm previousBlock r1 isBroken).
Proof.
  induction r1 as [|b r1 IH]; intros previousBlock isBroken; [reflexivity|].
  cbn [app Vocabulary.verdicts Vocabulary.broken_after].
  rewrite IH, last_cons. reflexivity.
Qed.

Lemma trace_app algorithm r1 r2 :
  forall previousBlock isBroken,
    trace algorithm previousBlock (r1 ++ r2) isBroken
    = trace algorithm previousBlock r1 isBroken
      ++ trace algorithm (last r1 previousBlock) r2
           (broken_after algorithm previousBlock r1 isBroken).
Proof.
  induction r1 as [|b r1 IH]; intros previousBlock isBroken; [reflexivity|].
  cbn [app Vocabulary.trace Vocabulary.broken_after].
  rewrite IH, last_cons, app_assoc. reflexivity.
Qed.

Lemma nth_error_predecessor {A : Type} (r1 r2 : list A) :
  forall first, nth_error (first :: r1 ++ r2) (List.length r1) = Some (last r1 first).
Proof.
  induction r1 as [|a r1 IH]; intros first; [reflexivity|].
  cbn [List.length app nth_error]. rewrite IH, last_cons. reflexivity.
Qed.

(** C6. The report of an empty chain is empty, and no error.  The report
    of any other chain starts with the entry of its first block, with
    [ok = true]: nothing of that block but its index is read. *)
Theorem validateChain_accepts_the_first_block :
  forall algorithm : Crypto.SupportedAlgorithm,
    validateChain algorithm [] = Returned [] [] /\
    forall (first : IBlock) (rest : list IBlock),
    exists (entries : list Verdict) (log : list Event),
      validateChain algorithm (first :: rest)
      = Returned ({| blockId := index first; ok := true |} :: entries) log /\
      List.length entries = List.length rest.
Proof.
  intros algorithm. split; [reflexivity|].
  intros first rest. rewrite validateChain_walk.
  eexists. eexists. split; [reflexivity | apply verdicts_length].
Qed.

(** C2. When the block at position [k >= 1] fails the hash-integrity check
    or the linkage check, [validateChain] returns a report, one entry per
    block, in which every entry from position [k] on has [ok = false]; the
    platform calls of the run are those of the run on the chain cut after
    position [k], so no digest is asked for behind the failure; and the
    entries before position [k] depend on the blocks before position [k]
    alone: any chain with the same first [k] blocks gets the same first [k]
    entries, whatever stands at position [k] and behind. *)
Theorem validateChain_cascades :
  forall (algorithm : Crypto.SupportedAlgorithm) (chain : list IBlock)
         (k : nat) (previousBlock currentBlock : IBlock),
    (1 <= k)%nat ->
    nth_error chain (k - 1) = Some previousBlock ->
    nth_error chain k = Some currentBlock ->
    integrity algorithm currentBlock = false
    \/ linkage previousBlock currentBlock = false ->
    exists (report : list Verdict) (log : list Event),
      validateChain algorithm chain = Returned report log /\
      List.length report = List.length chain /\
      (forall j entry,
         (k <= j)%nat -> nth_error report j = Some entry -> ok entry = false) /\
      events (validateChain algorithm (firstn (S k) chain)) = log /\
      (forall chain' report' log',
         firstn k chain' = firstn k chain ->
         validateChain algorithm chain' = Returned report' log' ->
         firstn k report' = firstn k report).
Proof.
  intros algorithm chain k previousBlock currentBlock Hk Hprev Hcur Hfail.
  destruct chain as [|first rest]; [destruct k; discriminate|].
  destruct k as [|k]; [lia|].
  replace (S k - 1)%nat with k in Hprev by lia.
  cbn [nth_error] in Hcur.
  destruct (nth_error_split rest k Hcur) as (r1 & r2 & -> & Hlen).
  rewrite <- Hlen, nth_error_predecessor in Hprev.
  injection Hprev as <-.
  assert (Hpass : passes algorithm (last r1 first) currentBlock = false).
  { unfold Vocabulary.passes.
    destruct Hfail as [-> | ->]; [reflexivity | apply andb_false_r]. }
  assert (Htail : forall isBroken,
             verdicts algorithm (last r1 first) (currentBlock :: r2) isBroken
             = map (fun b => verdict b false) (currentBlock :: r2)).
  { intros isBroken. cbn [Vocabulary.verdicts map].
    rewrite Hpass, andb_false_r, verdicts_broken. reflexivity. }
  exists (verdict first true
          :: verdicts algorithm first (r1 ++ currentBlock :: r2) false),
         (trace algorithm first (r1 ++ currentBlock :: r2) false).
  split; [apply validateChain_walk|].
  split; [cbn [List.length]; rewrite verdicts_length; reflexivity|].
  split; [|split].
  - intros j entry Hj Hentry.
    destruct j as [|j]; [lia|]. cbn [nth_error] in Hentry.
    rewrite verdicts_app, Htail in Hentry.
    rewrite nth_error_app2 in Hentry by (rewrite verdicts_length; lia).
    apply nth_error_In, in_map_iff in Hentry.
    destruct Hentry as (b & <- & _). reflexivity.
  - rewrite firstn_cons, firstn_app, firstn_all2 by lia.
    replace (S k - List.length r1)%nat with 1%nat by lia.
    cbn [firstn]. rewrite validateChain_walk. cbn [events].
    rewrite !trace_app. f_equal.
    cbn [Vocabulary.trace]. rewrite Hpass, andb_false_r, trace_broken.
    reflexivity.
  - intros chain' report' log' Hsame Hrun.
    destruct chain' as [|first' rest']; [discriminate|].
    rewrite !firstn_cons in Hsame. injection Hsame as -> Hsame.
    rewrite validateChain_walk in Hrun. injection Hrun as <- _.
    rewrite !firstn_cons. f_equal. rewrite !verdicts_firstn, Hsame. reflexivity.
Qed.

(** ** Further properties of the engine *)

(** What [mineBlock] returns is one of its candidates, the first that meets
    the target. *)
Lemma mineBlock_returned algorithm difficulty fuel block result log :
  mineBlock fuel block algorithm difficulty = Returned result log ->
  exists k : nat, (k < fuel)%nat /\
    result = candidate algorithm block k /\
    log = search_log algorithm block k /\
    meets algorithm difficulty block k = true /\
    (forall j, (j < k)%nat -> meets algorithm difficulty block j = false).
Proof.
  intros Hrun.
  destruct (first_meeting (meets algorithm difficulty block) fuel)
    as (n & Hle & Hmiss & Hend).
  assert (Hcase : n = fuel \/ (n < fuel)%nat /\ meets algorithm difficulty block n = true).
  { destruct Hend as [-> | Hmeet]; [now left|].
    destruct (Nat.eq_dec n fuel) as [-> | Hne]; [now left | right; split; [lia | assumption]]. }
  destruct Hcase as [-> | [Hlt Hmeet]].
  - rewrite mineBlock_exhausted in Hrun by assumption. discriminate.
  - rewrite (mineBlock_found algorithm difficulty n) in Hrun by assumption.
    injection Hrun as <- <-. exists n. repeat split; assumption.
Qed.

Lemma candidate_integrity algorithm block k :
  integrity algorithm block = true ->
  integrity algorithm (candidate algorithm block k) = true.
Proof.
  intros Hblock. destruct k as [|k]; [exact Hblock|].
  unfold Vocabulary.integrity. apply String.eqb_refl.
Qed.

Lemma startsWith_append (s a b : string) :
  JS.startsWith s (a ++ b) = true -> JS.startsWith s a = true.
Proof.
  unfold JS.startsWith. revert s.
  induction a as [|c a IH]; intros s H; [destruct s; reflexivity|].
  destruct s as [|c' s]; cbn in *; [discriminate|].
  destruct (ascii_dec c c'); [apply IH; exact H | discriminate].
Qed.

Lemma repeat_split (d d' : nat) :
  (d' <= d)%nat ->
  JS.repeat "0" d = (JS.repeat "0" d' ++ JS.repeat "0" (d - d'))%string.
Proof.
  revert d. induction d' as [|d' IH]; intros d Hle.
  - rewrite Nat.sub_0_r. reflexivity.
  - destruct d as [|d]; [lia|]. cbn. f_equal. apply IH. lia.
Qed.

Lemma startsWith_fewer_zeros (s : string) (d d' : nat) :
  (d' <= d)%nat ->
  JS.startsWith s (JS.repeat "0" d) = true ->
  JS.startsWith s (JS.repeat "0" d') = true.
Proof.
  intros Hle H. rewrite (repeat_split d d' Hle) in H.
  exact (startsWith_append _ _ _ H).
Qed.

(** X1. [createBlock] never fails: the string it hands to [hash] starts
    with the digits of a number, so the guard of [hash] against empty data
    never fires.  It returns the block of the fields it was given, with the
    nonce 0 when none is given and the duration 0, after exactly one request
    to the digest of the platform (and the warning, under SHA-1). *)
Theorem createBlock_never_fails :
  forall (algorithm : Crypto.SupportedAlgorithm) (i t : Z) (tx p : string)
         (n : option Z),
  exists (h : string) (buffer : list byte),
    createBlock algorithm i t tx p n
    = Returned
        {| index := i; timestamp := t; transaction := tx; previousHash := p;
           hash := h; nonce := match n with Some n => n | None => 0 end;
           duration := 0%float |}
        (match algorithm with
         | Crypto.SHA_1 => [ConsoleWarn Crypto.sha1_warning]
         | _ => []
         end ++ [SubtleDigest (Crypto.algorithm_name algorithm) buffer]) /\
    buffer <> [] /\
    h = Crypto.to_hex (subtle_digest algorithm buffer).
Proof.
  intros algorithm i t tx p n.
  exists (hexdigest algorithm
            (content i t tx p match n with Some n => n | None => 0 end)),
         (JS.TextEncoder_encode
            (content i t tx p match n with Some n => n | None => 0 end)).
  split; [apply createBlock_returns|]. split; [|reflexivity].
  pose proof (content_nonempty i t tx p match n with Some n => n | None => 0 end) as Hne.
  destruct (content i t tx p _); [congruence | discriminate].
Qed.


(** X4. Mining is idempotent, and a mined block stands at every lower
    difficulty: a block that [mineBlock] has returned at [difficulty] is
    returned unchanged, with no further digest, by [mineBlock] at any
    difficulty up to [difficulty]. *)
Theorem mineBlock_accepts_its_result :
  forall (algorithm algorithm' : Crypto.SupportedAlgorithm)
         (difficulty difficulty' fuel fuel' : nat)
         (block result : IBlock) (log : list Event),
    mineBlock fuel block algorithm difficulty = Returned result log ->
    (difficulty' <= difficulty)%nat ->
    mineBlock (S fuel') result algorithm' difficulty' = Returned result [].
Proof.
  intros algorithm algorithm' difficulty difficulty' fuel fuel' block result log
    Hrun Hle.
  destruct (mineBlock_returned _ _ _ _ _ _ Hrun) as (k & _ & -> & _ & Hmeet & _).
  cbn [Blockchain.mineBlock].
  unfold Vocabulary.meets in Hmeet.
  rewrite (startsWith_fewer_zeros _ difficulty difficulty' Hle Hmeet).
  reflexivity.
Qed.

(** ** Further properties of [validateChain] *)

Lemma verdicts_blockIds algorithm rest :
  forall previousBlock isBroken,
    map blockId (verdicts algorithm previousBlock rest isBroken) = map index rest.
Proof. induction rest; intros; cbn; [reflexivity | f_equal; apply IHrest]. Qed.

Lemma verdicts_stay_false algorithm rest :
  forall previousBlock isBroken i j ei ej,
    (i < j)%nat ->
    nth_error (verdicts algorithm previousBlock rest isBroken) i = Some ei ->
    ok ei = false ->
    nth_error (verdicts algorithm previousBlock rest isBroken) j = Some ej ->
    ok ej = false.
Proof.
  induction rest as [|b rest IH]; intros previousBlock isBroken i j ei ej Hij Hi Hfalse Hj.
  - destruct i; discriminate.
  - destruct j as [|j]; [lia|]. cbn [Vocabulary.verdicts nth_error] in Hi, Hj.
    destruct i as [|i].
    + cbn in Hi. injection Hi as <-. cbn [ok verdict] in Hfalse.
      rewrite Hfalse in Hj. cbn [negb] in Hj. rewrite verdicts_broken in Hj.
      apply nth_error_In, in_map_iff in Hj. destruct Hj as (x & <- & _). reflexivity.
    + cbn [nth_error] in Hi. exact (IH _ _ i j ei ej ltac:(lia) Hi Hfalse Hj).
Qed.

Lemma verdicts_all_ok algorithm rest :
  forall previousBlock,
    forallb ok (verdicts algorithm previousBlock rest false)
    = sound algorithm previousBlock rest.
Proof.
  induction rest as [|b rest IH]; intros previousBlock; [reflexivity|].
  cbn [Vocabulary.verdicts Reading.sound forallb verdict ok negb andb].
  destruct (passes algorithm previousBlock b) eqn:E; cbn [negb andb];
    [apply IH | reflexivity].
Qed.

Lemma broken_after_spec algorithm rest :
  forall previousBlock isBroken,
    broken_after algorithm previousBlock rest isBroken
    = isBroken || negb (forallb ok (verdicts algorithm previousBlock rest isBroken)).
Proof.
  induction rest as [|b rest IH]; intros previousBlock isBroken.
  - cbn. rewrite orb_false_r. reflexivity.
  - cbn [Vocabulary.broken_after Vocabulary.verdicts forallb verdict ok].
    rewrite IH.
    destruct isBroken, (passes algorithm previousBlock b); reflexivity.
Qed.

Lemma passes_previous_hash algorithm p p' b :
  hash p = hash p' -> passes algorithm p b = passes algorithm p' b.
Proof. intros H. unfold Vocabulary.passes, linkage. rewrite H. reflexivity. Qed.

Lemma verdicts_previous_hash algorithm rest p p' isBroken :
  hash p = hash p' ->
  verdicts algorithm p rest isBroken = verdicts algorithm p' rest isBroken.
Proof.
  intros H. destruct rest as [|b rest]; [reflexivity|].
  cbn [Vocabulary.verdicts]. rewrite (passes_previous_hash algorithm p p' b H).
  reflexivity.
Qed.

Lemma trace_previous_hash algorithm rest p p' isBroken :
  hash p = hash p' ->
  trace algorithm p rest isBroken = trace algorithm p' rest isBroken.
Proof.
  intros H. destruct rest as [|b rest]; [reflexivity|].
  cbn [Vocabulary.trace]. rewrite (passes_previous_hash algorithm p p' b H).
  reflexivity.
Qed.

Lemma same_sum_content b b' : same_sum b b' -> content_of b = content_of b'.
Proof.
  intros (Hsum & Htx & Hprev & _ & Hnonce).
  unfold content_of. rewrite !content_explicit, Hsum, Htx, Hprev, Hnonce.
  reflexivity.
Qed.

Lemma same_sum_passes algorithm p p' b b' :
  hash p = hash p' -> same_sum b b' ->
  passes algorithm p b = passes algorithm p' b'.
Proof.
  intros Hp Hb. pose proof (same_sum_content b b' Hb) as Hc.
  destruct Hb as (_ & _ & Hprev & Hhash & _).
  unfold Vocabulary.passes, Vocabulary.integrity, linkage.
  rewrite Hc, Hp, Hprev, Hhash. reflexivity.
Qed.

Lemma same_sum_walk algorithm rest :
  forall rest' p p' isBroken,
    hash p = hash p' ->
    Forall2 same_sum rest rest' ->
    map ok (verdicts algorithm p rest isBroken)
    = map ok (verdicts algorithm p' rest' isBroken)
    /\ trace algorithm p rest isBroken = trace algorithm p' rest' isBroken.
Proof.
  induction rest as [|b rest IH]; intros rest' p p' isBroken Hp Hall;
    inversion Hall as [|? b' ? rest'' Hb Hrest]; subst; [split; reflexivity|].
  cbn [Vocabulary.verdicts Vocabulary.trace map verdict ok].
  rewrite (same_sum_passes algorithm p p' b b' Hp Hb), (same_sum_content b b' Hb).
  destruct Hb as (_ & _ & _ & Hhash & _).
  destruct (IH rest'' b b'
              (negb (negb isBroken && passes algorithm p' b')) Hhash Hrest)
    as [Hv Ht].
  rewrite Hv, Ht. split; reflexivity.
Qed.

(** X5. [validateChain] never fails, on any chain and under any digest, and
    its report has one entry per block, in the order of the chain, each
    with the index of its block as [blockId]. *)
Theorem validateChain_reports_every_block :
  forall (algorithm : Crypto.SupportedAlgorithm) (chain : list IBlock),
  exists (report : list Verdict) (log : list Event),
    validateChain algorithm chain = Returned report log /\
    map blockId report = map index chain.
Proof.
  intros algorithm [|first rest].
  - exists [], []. split; reflexivity.
  - rewrite validateChain_walk. eexists. eexists. split; [reflexivity|].
    cbn [map verdict blockId]. rewrite verdicts_blockIds. reflexivity.
Qed.

(** X6. In a report of [validateChain] no entry with [ok = true] comes
    after an entry with [ok = false]: the flags are a run of [true]
    followed by a run of [false]. *)
Theorem validateChain_never_recovers :
  forall (algorithm : Crypto.SupportedAlgorithm) (chain : list IBlock)
         (report : list Verdict) (log : list Event) (i j : nat)
         (ei ej : Verdict),
    validateChain algorithm chain = Returned report log ->
    (i < j)%nat ->
    nth_error report i = Some ei -> ok ei = false ->
    nth_error report j = Some ej ->
    ok ej = false.
Proof.
  intros algorithm [|first rest] report log i j ei ej Hrun Hij Hi Hfalse Hj.
  - injection Hrun as <- _. destruct i; discriminate.
  - rewrite validateChain_walk in Hrun. injection Hrun as <- _.
    destruct j as [|j]; [lia|]. destruct i as [|i].
    + injection Hi as <-. discriminate.
    + exact (verdicts_stay_false algorithm rest first false i j ei ej
               ltac:(lia) Hi Hfalse Hj).
Qed.

(** X7. The report of [validateChain] has [ok = true] in every entry
    exactly when every block after the first passes both checks against
    its predecessor: its hash is the digest of its content, and its
    previous hash is the hash of the block before it.  The first block is
    not examined. *)
Theorem validateChain_all_ok_iff_sound :
  forall (algorithm : Crypto.SupportedAlgorithm) (first : IBlock)
         (rest : list IBlock),
  exists (report : list Verdict) (log : list Event),
    validateChain algorithm (first :: rest) = Returned report log /\
    (forallb ok report = true <-> sound algorithm first rest = true).
Proof.
  intros algorithm first rest. rewrite validateChain_walk.
  eexists. eexists. split; [reflexivity|].
  cbn [forallb verdict ok andb]. rewrite verdicts_all_ok. reflexivity.
Qed.

(** X8. Of the first block [validateChain] reads the index and the hash and
    nothing else: two chains that differ only in the other fields of their
    first block get the same report, after the same platform calls. *)
Theorem validateChain_reads_index_and_hash_of_first :
  forall (algorithm : Crypto.SupportedAlgorithm) (first first' : IBlock)
         (rest : list IBlock),
    index first = index first' ->
    hash first = hash first' ->
    validateChain algorithm (first :: rest)
    = validateChain algorithm (first' :: rest).
Proof.
  intros algorithm first first' rest Hindex Hhash.
  rewrite !validateChain_walk. unfold verdict. rewrite Hindex.
  rewrite (verdicts_previous_hash algorithm rest first first' false Hhash),
          (trace_previous_hash algorithm rest first first' false Hhash).
  reflexivity.
Qed.

(** X9. [validateChain] never reads a duration: restamping the durations of
    the blocks of a chain, in any way, changes neither the report nor the
    platform calls. *)
Theorem validateChain_ignores_durations :
  forall (algorithm : Crypto.SupportedAlgorithm) (restamp : IBlock -> float)
         (chain : list IBlock),
    validateChain algorithm (map (fun b => with_duration b (restamp b)) chain)
    = validateChain algorithm chain.
Proof.
  intros algorithm restamp [|first rest]; [reflexivity|].
  cbn [map]. rewrite !validateChain_walk.
  assert (Hwalk : forall rest p isBroken,
             verdicts algorithm (with_duration p (restamp p))
               (map (fun b => with_duration b (restamp b)) rest) isBroken
             = verdicts algorithm p rest isBroken
             /\ trace algorithm (with_duration p (restamp p))
                  (map (fun b => with_duration b (restamp b)) rest) isBroken
                = trace algorithm p rest isBroken).
  { clear. induction rest as [|b rest IH]; intros p isBroken; [split; reflexivity|].
    cbn [map Vocabulary.verdicts Vocabulary.trace].
    change (passes algorithm (with_duration p (restamp p))
              (with_duration b (restamp b)))
      with (passes algorithm p b).
    change (content_of (with_duration b (restamp b))) with (content_of b).
    change (verdict (with_duration b (restamp b))) with (verdict b).
    destruct (IH b (negb (negb isBroken && passes algorithm p b))) as [-> ->].
    split; reflexivity. }
  destruct (Hwalk rest first false) as [-> ->]. reflexivity.
Qed.

(** X10. [validateChain] sees the index and the timestamp of a block only
    through their sum, the first operand of the string it hashes: two
    chains whose blocks agree, position by position, on that sum and on
    transaction, previous hash, hash and nonce get the same [ok] flags
    after the same platform calls, however index and timestamp share the
    sum. *)
Theorem validateChain_sees_index_plus_timestamp :
  forall (algorithm : Crypto.SupportedAlgorithm) (chain chain' : list IBlock),
    Forall2 same_sum chain chain' ->
    exists (report report' : list Verdict) (log : list Event),
      validateChain algorithm chain = Returned report log /\
      validateChain algorithm chain' = Returned report' log /\
      map ok report = map ok report'.
Proof.
  intros algorithm chain chain' Hall.
  inversion Hall as [|first first' rest rest' Hfirst Hrest]; subst.
  - exists [], [], []. repeat split; reflexivity.
  - rewrite !validateChain_walk.
    destruct Hfirst as (_ & _ & _ & Hhash & _).
    destruct (same_sum_walk algorithm rest rest' first first' false Hhash Hrest)
      as [Hv Ht].
    eexists. eexists. eexists. split; [reflexivity|]. split.
    + rewrite Ht. reflexivity.
    + cbn [map verdict ok]. rewrite Hv. reflexivity.
Qed.

(** ** Further properties of [addBlock] *)

Lemma addBlock_returned fuel t store chain front previousBlock transaction
    algorithm difficulty chain' store' log :
  deref store chain = Some (front ++ [previousBlock]) ->
  addBlock fuel t store chain transaction algorithm difficulty
  = Returned (chain', store') log ->
  exists k : nat,
    (chain', store')
    = alloc store
        ((front ++ [previousBlock])
         ++ [with_duration
               (candidate algorithm
                  (template_of algorithm t previousBlock transaction) k)
               (finished t - started t)%float]) /\
    meets algorithm difficulty
      (template_of algorithm t previousBlock transaction) k = true.
Proof.
  intros Hchain Hrun.
  rewrite (addBlock_unfold _ _ _ _ front previousBlock) in Hrun by exact Hchain.
  destruct (mineBlock fuel (template_of algorithm t previousBlock transaction)
              algorithm difficulty) as [mined l | e l | l] eqn:Hmine;
    cbn in Hrun; try discriminate.
  destruct (mineBlock_returned _ _ _ _ _ _ Hmine) as (k & _ & -> & _ & Hmeet & _).
  exists k. split; [|exact Hmeet]. injection Hrun as <- <- _. reflexivity.
Qed.

Lemma template_integrity algorithm t previousBlock transaction :
  integrity algorithm (template_of algorithm t previousBlock transaction) = true.
Proof. unfold Vocabulary.integrity. apply String.eqb_refl. Qed.

(** X11. Whenever [addBlock] returns, the new chain is the input chain
    followed by one block whose index is the sum, a number, of the index of
    the last block and 1 (that index plus one whenever it lies between
    -2^53 and 2^53 - 1), whose timestamp is the wall clock, whose
    transaction is the one given, whose previous hash is the hash of the
    last block and whose duration is the elapsed time; its nonce is not
    negative, its hash is the digest of its own content and starts with
    [difficulty] zeros. *)
Theorem addBlock_links_the_new_block :
  forall (fuel : nat) (t : Timing) (store : Store) (chain : ArrayRef)
         (front : list IBlock) (previousBlock : IBlock) (transaction : string)
         (algorithm : Crypto.SupportedAlgorithm) (difficulty : nat)
         (chain' : ArrayRef) (store' : Store) (log : list Event),
    deref store chain = Some (front ++ [previousBlock]) ->
    addBlock fuel t store chain transaction algorithm difficulty
    = Returned (chain', store') log ->
    exists block : IBlock,
      deref store' chain' = Some ((front ++ [previousBlock]) ++ [block]) /\
      index block = JS.add (index previousBlock) 1 /\
      ((- 2 ^ 53 <= index previousBlock < 2 ^ 53)%Z ->
       index block = (index previousBlock + 1)%Z) /\
      timestamp block = wall_clock t /\
      Blockchain.transaction block = transaction /\
      previousHash block = hash previousBlock /\
      duration block = (finished t - started t)%float /\
      (0 <= nonce block)%Z /\
      hash block = hexdigest algorithm (content_of block) /\
      JS.startsWith (hash block) (JS.repeat "0" difficulty) = true.
Proof.
  intros fuel t store chain front previousBlock transaction algorithm difficulty
    chain' store' log Hchain Hrun.
  destruct (addBlock_returned _ _ _ _ _ _ _ _ _ _ _ _ Hchain Hrun)
    as (k & Hpair & Hmeet).
  injection Hpair as -> ->.
  eexists. split; [apply deref_alloc_new|].
  assert (Hnonce : nonce (candidate algorithm
                            (template_of algorithm t previousBlock transaction) k)
                   = Z.min (Z.of_nat k) (2 ^ 53))
    by (rewrite candidate_nonce; apply nonce_after_zero).
  change (2 ^ 53)%Z with 9007199254740992%Z in Hnonce.
  split; [destruct k; reflexivity|].
  split; [intros Hsafe; rewrite <- add_safe by lia; destruct k; reflexivity|].
  split; [destruct k; reflexivity|]. split; [destruct k; reflexivity|].
  split; [destruct k; reflexivity|]. split; [reflexivity|].
  split; [|split; [destruct k; reflexivity | exact Hmeet]].
  change (nonce (with_duration ?b ?d)) with (nonce b). rewrite Hnonce. lia.
Qed.

(** X12. [validateChain] after [addBlock]: whenever [addBlock] returns, the
    report of the new chain is the report of the input chain followed by
    one entry for the new block, under the index that [addBlock] gave it
    (the sum, a number, of the index of the last block and 1), whose [ok]
    is [true] exactly when every entry before it is.  A chain
    that validates still validates after [addBlock]; a broken chain stays
    broken, the new block included. *)
Theorem addBlock_then_validateChain :
  forall (fuel : nat) (t : Timing) (store : Store) (chain : ArrayRef)
         (front : list IBlock) (previousBlock : IBlock) (transaction : string)
         (algorithm : Crypto.SupportedAlgorithm) (difficulty : nat)
         (chain' : ArrayRef) (store' : Store) (log : list Event)
         (report : list Verdict) (vlog : list Event),
    deref store chain = Some (front ++ [previousBlock]) ->
    addBlock fuel t store chain transaction algorithm difficulty
    = Returned (chain', store') log ->
    validateChain algorithm (front ++ [previousBlock]) = Returned report vlog ->
    exists (blocks' : list IBlock) (vlog' : list Event),
      deref store' chain' = Some blocks' /\
      validateChain algorithm blocks'
      = Returned (report ++ [{| blockId := JS.add (index previousBlock) 1;
                                ok := forallb ok report |}]) vlog'.
Proof.
  intros fuel t store chain front previousBlock transaction algorithm difficulty
    chain' store' log report vlog Hchain Hrun Hreport.
  destruct (addBlock_returned _ _ _ _ _ _ _ _ _ _ _ _ Hchain Hrun)
    as (k & Hpair & _).
  injection Hpair as -> ->.
  set (block := with_duration
                  (candidate algorithm
                     (template_of algorithm t previousBlock transaction) k)
                  (finished t - started t)%float).
  assert (Hpass : passes algorithm previousBlock block = true).
  { unfold Vocabulary.passes. apply andb_true_intro. split.
    - change (integrity algorithm block)
        with (integrity algorithm
                (candidate algorithm
                   (template_of algorithm t previousBlock transaction) k)).
      apply candidate_integrity, template_integrity.
    - unfold linkage. destruct k; apply String.eqb_refl. }
  assert (Hindex : index block = JS.add (index previousBlock) 1)
    by (destruct k; reflexivity).
  pose proof (last_last front previousBlock previousBlock) as Hlast.
  destruct (front ++ [previousBlock]) as [|first rest] eqn:Hsplit.
  { destruct front; discriminate. }
  rewrite last_cons in Hlast.
  exists ((first :: rest) ++ [block]). eexists.
  split; [apply deref_alloc_new|].
  rewrite validateChain_walk in Hreport. injection Hreport as <- _.
  cbn [app]. rewrite validateChain_walk, verdicts_app, Hlast.
  cbn [Vocabulary.verdicts]. rewrite Hpass, andb_true_r, broken_after_spec.
  cbn [orb forallb verdict ok andb]. rewrite negb_involutive.
  unfold verdict. rewrite Hindex. cbn [app]. reflexivity.
Qed.

(** ** The functions of the component *)

Lemma sound_app algorithm r :
  forall p b,
    sound algorithm p (r ++ [b])
    = sound algorithm p r && passes algorithm (last r p) b.
Proof.
  induction r as [|c r IH]; intros p b.
  - cbn. rewrite andb_true_r. reflexivity.
  - cbn [app Reading.sound]. rewrite IH, last_cons, andb_assoc. reflexivity.
Qed.

Lemma verdicts_nth algorithm rest :
  forall previousBlock isBroken j entry,
    nth_error (verdicts algorithm previousBlock rest isBroken) j = Some entry ->
    ok entry = negb isBroken && sound algorithm previousBlock (firstn (S j) rest)
    /\ exists block, nth_error rest j = Some block /\ blockId entry = index block.
Proof.
  induction rest as [|b rest IH]; intros previousBlock isBroken j entry Hj.
  - destruct j; discriminate.
  - cbn [Vocabulary.verdicts] in Hj. destruct j as [|j].
    + injection Hj as <-. split; [|exists b; split; reflexivity].
      cbn. rewrite andb_true_r. reflexivity.
    + cbn [nth_error] in Hj. apply IH in Hj. destruct Hj as [Hok Hid].
      split; [|exact Hid]. rewrite Hok.
      rewrite firstn_cons. cbn [Reading.sound].
      destruct isBroken, (passes algorithm previousBlock b); reflexivity.
Qed.

Lemma shown_app calls calls' before :
  App.shown (calls ++ calls') before = App.shown calls' (App.shown calls before).
Proof.
  revert before. induction calls as [|[] calls IH]; intros before; cbn;
    try apply IH; reflexivity.
Qed.

Lemma calculating_app calls calls' before :
  App.calculating (calls ++ calls') before
  = App.calculating calls' (App.calculating calls before).
Proof.
  revert before. induction calls as [|[] calls IH]; intros before; cbn;
    try apply IH; reflexivity.
Qed.

(** What the engine has built: a genesis block first, the transactions in
    order, the index of every block equal to its position (up to 2^53,
    where counting in steps of 1 stops), and every block after the first
    passing both checks of [validateChain]. *)
Lemma built_extend algorithm t (front : list IBlock) previousBlock tx k txs :
  map transaction (front ++ [previousBlock]) = "Genesis Block" :: txs ->
  map index (front ++ [previousBlock])
  = map (fun i => Z.min (Z.of_nat i) (2 ^ 53))
      (seq 0 (List.length (front ++ [previousBlock]))) ->
  (exists g r, front ++ [previousBlock] = g :: r /\ sound algorithm g r = true) ->
  let block := with_duration
                 (candidate algorithm
                    (template_of algorithm t previousBlock tx) k)
                 (finished t - started t)%float in
  map transaction ((front ++ [previousBlock]) ++ [block])
  = "Genesis Block" :: (txs ++ [tx]) /\
  map index ((front ++ [previousBlock]) ++ [block])
  = map (fun i => Z.min (Z.of_nat i) (2 ^ 53))
      (seq 0 (List.length ((front ++ [previousBlock]) ++ [block]))) /\
  (exists g r, (front ++ [previousBlock]) ++ [block] = g :: r
               /\ sound algorithm g r = true).
Proof.
  intros Htx Hindex (g & r & Hsplit & Hsound) block.
  assert (Hbtx : transaction block = tx) by (destruct k; reflexivity).
  assert (Hbindex : index block = JS.add (index previousBlock) 1)
    by (destruct k; reflexivity).
  assert (Hpass : passes algorithm previousBlock block = true).
  { unfold Vocabulary.passes. apply andb_true_intro. split.
    - change (integrity algorithm block)
        with (integrity algorithm
                (candidate algorithm (template_of algorithm t previousBlock tx) k)).
      apply candidate_integrity, template_integrity.
    - unfold linkage. destruct k; apply String.eqb_refl. }
  split; [|split].
  - rewrite map_app, Htx. cbn [map app]. rewrite Hbtx. reflexivity.
  - assert (Hprev : index previousBlock
                    = Z.min (Z.of_nat (List.length front)) (2 ^ 53)).
    { pose proof Hindex as H.
      rewrite length_app, seq_app, !map_app in H. cbn [List.length seq map] in H.
      apply app_inj_tail in H. exact (proj2 H). }
    rewrite (length_app (front ++ [previousBlock])), seq_app, !map_app, <- Hindex.
    f_equal; [rewrite map_app; reflexivity|].
    cbn [List.length seq map]. rewrite Hbindex, Hprev, length_app, add_capped.
    cbn [List.length]. do 3 f_equal. lia.
  - exists g, (r ++ [block]). split.
    + rewrite Hsplit. reflexivity.
    + rewrite sound_app, Hsound. cbn [andb].
      pose proof (last_last front previousBlock previousBlock) as Hlast.
      rewrite Hsplit, last_cons in Hlast. rewrite Hlast. exact Hpass.
Qed.

Lemma rebuild_finished algorithm difficulty fuel clocks cancelled txs :
  forall i store currentChain done blocks kept,
    deref store currentChain = Some blocks ->
    App.shown done None = Some currentChain ->
    map transaction blocks = "Genesis Block" :: kept ->
    map index blocks
    = map (fun i => Z.min (Z.of_nat i) (2 ^ 53)) (seq 0 (List.length blocks)) ->
    (exists g r, blocks = g :: r /\ sound algorithm g r = true) ->
    App.ending (App.rebuild subtle_digest fuel clocks cancelled algorithm
                  difficulty i txs store currentChain done) = App.Finished ->
    exists final blocks',
      App.shown (App.calls (App.rebuild subtle_digest fuel clocks cancelled
                              algorithm difficulty i txs store currentChain done))
        None = Some final /\
      deref (App.store_after
               (App.rebuild subtle_digest fuel clocks cancelled algorithm
                  difficulty i txs store currentChain done)) final
      = Some blocks' /\
      map transaction blocks' = "Genesis Block" :: (kept ++ txs) /\
      map index blocks'
      = map (fun i => Z.min (Z.of_nat i) (2 ^ 53)) (seq 0 (List.length blocks')) /\
      (exists g r, blocks' = g :: r /\ sound algorithm g r = true) /\
      (forall r a, deref store r = Some a ->
                   deref (App.store_after
                            (App.rebuild subtle_digest fuel clocks cancelled
                               algorithm difficulty i txs store currentChain done))
                     r = Some a).
Proof.
  induction txs as [|tx txs IH];
    intros i store currentChain done blocks kept Hderef Hshown Htx Hindex Hsound Hend.
  - cbn [App.rebuild App.calls App.store_after].
    exists currentChain, blocks. rewrite shown_app, Hshown, app_nil_r.
    repeat split; try assumption. intros r a H; exact H.
  - cbn [App.rebuild] in *.
    destruct (cancelled i); [discriminate Hend|].
    destruct (Blockchain.addBlock subtle_digest fuel (clocks i) store currentChain
                tx algorithm difficulty) as [[chain' store'] l | e l | l] eqn:Hadd;
      try discriminate Hend.
    assert (Hne : blocks <> []) by (destruct Hsound as (g & r & -> & _); discriminate).
    destruct (exists_last Hne) as (front & previousBlock & ->).
    destruct (addBlock_returned _ _ _ _ _ _ _ _ _ _ _ _ Hderef Hadd) as (k & Hpair & _).
    injection Hpair as -> ->.
    destruct (built_extend algorithm (clocks i) front previousBlock tx k kept
                Htx Hindex Hsound) as (Htx' & Hindex' & Hsound').
    destruct (IH (S i) _ _ (done ++ [App.setChain (List.length store)]) _ (kept ++ [tx])
                (proj1 (deref_alloc_new store _))
                ltac:(rewrite shown_app; reflexivity)
                Htx' Hindex' Hsound' Hend)
      as (final & blocks' & Hfinal & Hblocks' & Htxs & Hidx & Hsnd & Hold).
    exists final, blocks'. rewrite <- app_assoc in Htxs.
    repeat split; try assumption.
    intros r a Hr. apply Hold. now apply deref_alloc_old.
Qed.

Lemma createGenesisBlock_returned fuel t algorithm difficulty genesisBlock log :
  createGenesisBlock fuel t algorithm difficulty = Returned genesisBlock log ->
  exists k : nat,
    genesisBlock
    = with_duration (candidate algorithm (genesis_template_at t) k)
        (finished t - started t)%float.
Proof.
  unfold Blockchain.createGenesisBlock, JS.Object_freeze.
  change {| index := 0; timestamp := wall_clock t; transaction := "Genesis Block";
            previousHash := "0"; hash := ""; nonce := 0; duration := 0%float |}
    with (genesis_template_at t).
  destruct (mineBlock fuel (genesis_template_at t) algorithm difficulty)
    as [mined l | e l | l] eqn:Hmine; cbn; try discriminate.
  intros H. injection H as <- _.
  destruct (mineBlock_returned _ _ _ _ _ _ Hmine) as (k & _ & -> & _).
  exists k. reflexivity.
Qed.

Lemma rebuild_calculating algorithm difficulty fuel clocks cancelled txs :
  forall i store currentChain done before,
    App.calculating done before = true ->
    App.calculating
      (App.calls (App.rebuild subtle_digest fuel clocks cancelled algorithm
                    difficulty i txs store currentChain done)) before
    = match App.ending (App.rebuild subtle_digest fuel clocks cancelled algorithm
                          difficulty i txs store currentChain done) with
      | App.Finished => false
      | _ => true
      end.
Proof.
  induction txs as [|tx txs IH]; intros i store currentChain done before Hdone.
  - cbn. rewrite calculating_app. reflexivity.
  - cbn [App.rebuild]. destruct (cancelled i); [exact Hdone|].
    destruct (Blockchain.addBlock subtle_digest fuel (clocks i) store currentChain
                tx algorithm difficulty) as [[chain' store'] l | e l | l];
      try exact Hdone.
    apply IH. rewrite calculating_app. exact Hdone.
Qed.

(** X13. A recalculation that runs to its end rebuilds the chain from the
    transactions of the old one: the chain it shows last starts with a new
    genesis block and carries the transactions of the old blocks after the
    first, in their order; the index of every block is its position, in an
    array of fewer than 2^32 blocks, which is every array of the platform
    (the indices are counted from 0 in steps of 1, and such counting stops
    at 2^53); and [validateChain] reports every block [ok].  The array of
    the old chain is left as it was. *)
Theorem recalculate_rebuilds_the_chain :
  forall (fuel : nat) (clocks : nat -> Timing) (cancelled : nat -> bool)
         (store : Store) (chain : ArrayRef) (blocks : list IBlock)
         (algorithm : Crypto.SupportedAlgorithm) (difficulty : nat),
    deref store chain = Some blocks ->
    App.ending (App.recalculate subtle_digest fuel clocks cancelled store chain
                  algorithm difficulty) = App.Finished ->
    exists (final : ArrayRef) (blocks' : list IBlock) (report : list Verdict)
           (log : list Event),
      App.shown (App.calls (App.recalculate subtle_digest fuel clocks cancelled
                              store chain algorithm difficulty)) None
      = Some final /\
      deref (App.store_after (App.recalculate subtle_digest fuel clocks cancelled
                                store chain algorithm difficulty)) final
      = Some blocks' /\
      map transaction blocks'
      = "Genesis Block" :: map transaction (skipn 1 blocks) /\
      map index blocks'
      = map (fun i => Z.min (Z.of_nat i) (2 ^ 53)) (seq 0 (List.length blocks')) /\
      ((Z.of_nat (List.length blocks') < 2 ^ 32)%Z ->
       map index blocks' = map Z.of_nat (seq 0 (List.length blocks'))) /\
      validateChain algorithm blocks' = Returned report log /\
      forallb ok report = true /\
      deref (App.store_after (App.recalculate subtle_digest fuel clocks cancelled
                                store chain algorithm difficulty)) chain
      = Some blocks.
Proof.
  intros fuel clocks cancelled store chain blocks algorithm difficulty Hchain.
  unfold App.recalculate. rewrite Hchain. cbn [alloc].
  destruct (createGenesisBlock fuel (clocks 0%nat) algorithm difficulty)
    as [genesisBlock l | e l | l] eqn:Hgenesis; try discriminate.
  destruct (cancelled 0%nat); [discriminate|].
  intros Hend.
  destruct (createGenesisBlock_returned _ _ _ _ _ _ Hgenesis) as (k & Hk).
  match type of Hend with
  | App.ending (App.rebuild _ _ _ _ _ _ _ _ ?st ?cur ?done) = _ =>
      destruct (rebuild_finished algorithm difficulty fuel clocks cancelled
                  (map transaction (skipn 1 blocks)) 1 st cur done
                  [genesisBlock] [])
        as (final & blocks' & Hfinal & Hblocks' & Htxs & Hidx & Hsnd & Hold)
  end.
  - exact (proj1 (deref_alloc_new (store ++ [[]]) [genesisBlock])).
  - reflexivity.
  - rewrite Hk. destruct k; reflexivity.
  - rewrite Hk. destruct k; reflexivity.
  - exists genesisBlock, []. split; reflexivity.
  - exact Hend.
  - destruct Hsnd as (g & r & -> & Hsound).
    exists final, (g :: r). eexists. eexists.
    split; [exact Hfinal|]. split; [exact Hblocks'|].
    split; [exact Htxs|]. split; [exact Hidx|].
    split.
    { intros Hlen. rewrite Hidx. apply map_ext_in. intros i Hi.
      apply in_seq in Hi.
      change (2 ^ 32)%Z with 4294967296%Z in Hlen.
      change (2 ^ 53)%Z with 9007199254740992%Z. lia. }
    split; [apply validateChain_walk|]. split.
    + cbn [forallb verdict ok andb]. rewrite verdicts_all_ok. exact Hsound.
    + apply Hold.
      apply (deref_alloc_old (store ++ [[]]) [genesisBlock]).
      apply (deref_alloc_old store []). exact Hchain.
Qed.

Lemma rebuild_abandoned algorithm difficulty fuel clocks cancelled txs :
  forall i store currentChain done blocks,
    deref store currentChain = Some blocks ->
    App.shown done None = Some currentChain ->
    List.length blocks = i ->
    (forall j, (j < i)%nat -> cancelled j = false) ->
    App.ending (App.rebuild subtle_digest fuel clocks cancelled algorithm
                  difficulty i txs store currentChain done) = App.Abandoned ->
    exists (k : nat) (final : ArrayRef) (blocks' : list IBlock),
      cancelled k = true /\
      (forall j, (j < k)%nat -> cancelled j = false) /\
      (k < i + List.length txs)%nat /\
      App.shown (App.calls (App.rebuild subtle_digest fuel clocks cancelled
                              algorithm difficulty i txs store currentChain done))
        None = Some final /\
      deref (App.store_after
               (App.rebuild subtle_digest fuel clocks cancelled algorithm
                  difficulty i txs store currentChain done)) final
      = Some blocks' /\
      List.length blocks' = k.
Proof.
  induction txs as [|tx txs IH];
    intros i store currentChain done blocks Hderef Hshown Hlen Hbefore Hend;
    [discriminate Hend|].
  cbn [App.rebuild] in *.
  destruct (cancelled i) eqn:Hi.
  - exists i, currentChain, blocks. cbn [List.length].
    repeat split; try assumption. lia.
  - destruct (Blockchain.addBlock subtle_digest fuel (clocks i) store currentChain
                tx algorithm difficulty) as [[chain' store'] l | e l | l] eqn:Hadd;
      try discriminate Hend.
    destruct blocks as [|b0 blocks0] eqn:Hblocks.
    { unfold Blockchain.addBlock in Hadd. rewrite Hderef in Hadd. discriminate Hadd. }
    assert (Hne : b0 :: blocks0 <> []) by discriminate.
    destruct (exists_last Hne) as (front & previousBlock & Hsplit).
    rewrite Hsplit in Hderef, Hlen.
    destruct (addBlock_returned _ _ _ _ _ _ _ _ _ _ _ _ Hderef Hadd) as (k & Hpair & _).
    injection Hpair as -> ->.
    match type of Hend with
    | App.ending (App.rebuild _ _ _ _ _ _ _ _ (_ ++ [?new]) _ _) = _ =>
        assert (Hnew : List.length new = S i)
          by (rewrite length_app; cbn [List.length]; lia);
        assert (Hearlier : forall j, (j < S i)%nat -> cancelled j = false)
          by (intros j Hj; destruct (Nat.eq_dec j i) as [-> | Hne'];
              [exact Hi | apply Hbefore; lia]);
        destruct (IH (S i) _ _ (done ++ [App.setChain (List.length store)]) new
                    (proj1 (deref_alloc_new store new))
                    ltac:(rewrite shown_app; reflexivity)
                    Hnew Hearlier Hend)
          as (k' & final & blocks' & Hk & Hmin & Hbound & Hfinal & Hblocks' & Hlen')
    end.
    exists k', final, blocks'. cbn [List.length].
    repeat split; try assumption. lia.
Qed.

(** X21. A recalculation that is abandoned stopped at the first
    cancellation check that found the flag set: if that is the check number
    [k], counted from 0, the chain it has shown last has exactly [k]
    blocks, the empty chain when [k = 0], and [k] is at most the number of
    transactions it had to keep. *)
Theorem recalculate_abandoned_at_the_first_set_flag :
  forall (fuel : nat) (clocks : nat -> Timing) (cancelled : nat -> bool)
         (store : Store) (chain : ArrayRef) (blocks : list IBlock)
         (algorithm : Crypto.SupportedAlgorithm) (difficulty : nat),
    deref store chain = Some blocks ->
    App.ending (App.recalculate subtle_digest fuel clocks cancelled store chain
                  algorithm difficulty) = App.Abandoned ->
    exists (k : nat) (final : ArrayRef) (blocks' : list IBlock),
      cancelled k = true /\
      (forall j, (j < k)%nat -> cancelled j = false) /\
      (k <= List.length (skipn 1 blocks))%nat /\
      App.shown (App.calls (App.recalculate subtle_digest fuel clocks cancelled
                              store chain algorithm difficulty)) None
      = Some final /\
      deref (App.store_after (App.recalculate subtle_digest fuel clocks cancelled
                                store chain algorithm difficulty)) final
      = Some blocks' /\
      List.length blocks' = k.
Proof.
  intros fuel clocks cancelled store chain blocks algorithm difficulty Hchain.
  unfold App.recalculate. rewrite Hchain. cbn [alloc].
  destruct (createGenesisBlock fuel (clocks 0%nat) algorithm difficulty)
    as [genesisBlock l | e l | l] eqn:Hgenesis; try discriminate.
  destruct (cancelled 0%nat) eqn:H0.
  - intros _. exists 0%nat, (List.length store), [].
    cbn [App.calls App.store_after App.shown app].
    repeat split; try assumption; try lia.
    exact (proj1 (deref_alloc_new store [])).
  - intros Hend.
    match type of Hend with
    | App.ending (App.rebuild _ _ _ _ _ _ _ _ ?st ?cur ?done) = _ =>
        destruct (rebuild_abandoned algorithm difficulty fuel clocks cancelled
                    (map transaction (skipn 1 blocks)) 1 st cur done [genesisBlock])
          as (k & final & blocks' & Hk & Hmin & Hbound & Hfinal & Hblocks' & Hlen)
    end.
    + exact (proj1 (deref_alloc_new (store ++ [[]]) [genesisBlock])).
    + reflexivity.
    + reflexivity.
    + intros j Hj. replace j with 0%nat by lia. exact H0.
    + exact Hend.
    + exists k, final, blocks'. rewrite length_map in Hbound.
      repeat split; try assumption. lia.
Qed.

(** X14. The component stays busy unless the function ends: after a run of
    [recalculate], and after a run of the handler [addBlock],
    [isCalculating] is [false] when the run reached its last statement
    and [true] in every other case, cancelled or failed, whatever it was
    before. *)
Theorem isCalculating_is_cleared_only_at_the_end :
  forall (fuel : nat) (clocks : nat -> Timing) (cancelled : nat -> bool)
         (t : Timing) (store : Store) (chain : ArrayRef) (transaction : string)
         (algorithm : Crypto.SupportedAlgorithm) (difficulty : nat)
         (before : bool),
    App.calculating
      (App.calls (App.recalculate subtle_digest fuel clocks cancelled store chain
                    algorithm difficulty)) before
    = match App.ending (App.recalculate subtle_digest fuel clocks cancelled store
                          chain algorithm difficulty) with
      | App.Finished => false
      | _ => true
      end /\
    App.calculating
      (App.calls (App.addBlock subtle_digest fuel t store chain transaction
                    algorithm difficulty)) before
    = match App.ending (App.addBlock subtle_digest fuel t store chain transaction
                          algorithm difficulty) with
      | App.Finished => false
      | _ => true
      end.
Proof.
  intros fuel clocks cancelled t store chain transaction algorithm difficulty before.
  split.
  - unfold App.recalculate. destruct (deref store chain); [|reflexivity].
    cbn [alloc].
    destruct (createGenesisBlock fuel (clocks 0%nat) algorithm difficulty);
      try reflexivity.
    destruct (cancelled 0%nat); [reflexivity|].
    apply rebuild_calculating. reflexivity.
  - unfold App.addBlock.
    destruct (Blockchain.addBlock subtle_digest fuel t store chain transaction
                algorithm difficulty) as [[newChain store'] l | e l | l];
      reflexivity.
Qed.

(** X15. The handler [addBlock] on an empty chain: the engine throws, and
    the handler has called [setIsCalculating(true)] and nothing else; the
    chain and the typed transaction are not touched, and nothing clears
    the busy flag. *)
Theorem addBlock_handler_on_empty_chain :
  forall (fuel : nat) (t : Timing) (store : Store) (chain : ArrayRef)
         (transaction : string) (algorithm : Crypto.SupportedAlgorithm)
         (difficulty : nat),
    deref store chain = Some [] ->
    App.addBlock subtle_digest fuel t store chain transaction algorithm difficulty
    = {| App.calls := [App.setIsCalculating true]; App.store_after := store;
         App.ending :=
           App.Rejected
             (TypeError "Cannot read properties of undefined (reading 'index')") |}.
Proof.
  intros fuel t store chain transaction algorithm difficulty Hempty.
  unfold App.addBlock, Blockchain.addBlock. rewrite Hempty. reflexivity.
Qed.

(** ** [randomlyBreakOne] *)

Lemma select_returned fuel draws blocks :
  forall n selectedBlock result log,
    App.select fuel draws n blocks selectedBlock = Returned result log ->
    exists block, nth_error blocks result = Some block /\ index block <> 0%Z.
Proof.
  induction fuel as [|fuel IH]; intros n selectedBlock result log Hrun;
    [discriminate|].
  cbn [App.select] in Hrun. unfold JS.Array_get in Hrun.
  destruct (Z.ltb_spec (Z.of_nat selectedBlock) 0); [lia|].
  rewrite Nat2Z.id in Hrun.
  destruct (nth_error blocks selectedBlock) as [block|] eqn:Hnth; [|discriminate].
  destruct (Z.eqb_spec (index block) 0) as [Hzero | Hnonzero].
  - exact (IH _ _ _ _ Hrun).
  - injection Hrun as <- _. exists block. split; assumption.
Qed.

Lemma select_all_zero fuel draws blocks :
  (forall block, In block blocks -> index block = 0%Z) ->
  forall n selectedBlock result log,
    App.select fuel draws n blocks selectedBlock <> Returned result log.
Proof.
  intros Hzero n selectedBlock result log Hrun.
  destruct (select_returned _ _ _ _ _ _ _ Hrun) as (block & Hnth & Hne).
  apply Hne, Hzero. exact (nth_error_In _ _ Hnth).
Qed.

Lemma select_spins fuel draws blocks :
  (forall block, In block blocks -> index block = 0%Z) ->
  (forall n, (draws n < List.length blocks)%nat) ->
  forall n selectedBlock,
    (selectedBlock < List.length blocks)%nat ->
    App.select fuel draws n blocks selectedBlock = OutOfFuel [].
Proof.
  intros Hzero Hdraws.
  induction fuel as [|fuel IH]; intros n selectedBlock Hin; [reflexivity|].
  cbn [App.select]. unfold JS.Array_get.
  destruct (Z.ltb_spec (Z.of_nat selectedBlock) 0); [lia|].
  rewrite Nat2Z.id.
  destruct (nth_error blocks selectedBlock) as [block|] eqn:Hnth.
  - rewrite (Hzero block (nth_error_In _ _ Hnth)). cbn. apply IH, Hdraws.
  - apply nth_error_None in Hnth. lia.
Qed.

Lemma Array_update_at {A : Type} (f : A -> A) (a : list A) :
  forall i x, nth_error a i = Some x ->
              App.Array_update a i f = firstn i a ++ f x :: skipn (S i) a.
Proof.
  induction a as [|y a IH]; intros [|i] x H; try discriminate.
  - injection H as ->. reflexivity.
  - cbn [nth_error] in H. cbn. f_equal. exact (IH i x H).
Qed.

(** X16. When [randomlyBreakOne] ends, it has called [setChain] once, with
    a new array that is the old chain except at one position: there, a
    block whose index is not 0 has its transaction replaced by
    "Oops! I broke this one", every other field kept, the hash included.
    No block of index 0 is ever broken, and the array of the old chain is
    left as it was. *)
Theorem randomlyBreakOne_breaks_one_later_block :
  forall (fuel : nat) (draws : nat -> nat) (store : Store) (chain : ArrayRef)
         (blocks : list IBlock),
    deref store chain = Some blocks ->
    App.ending (App.randomlyBreakOne fuel draws store chain) = App.Finished ->
    exists (selectedBlock : nat) (block : IBlock) (chainCopy : ArrayRef),
      nth_error blocks selectedBlock = Some block /\
      index block <> 0%Z /\
      App.calls (App.randomlyBreakOne fuel draws store chain)
      = [App.setChain chainCopy] /\
      deref (App.store_after (App.randomlyBreakOne fuel draws store chain))
        chainCopy
      = Some (firstn selectedBlock blocks
              ++ App.with_transaction block "Oops! I broke this one"
                 :: skipn (S selectedBlock) blocks) /\
      deref (App.store_after (App.randomlyBreakOne fuel draws store chain)) chain
      = Some blocks /\
      deref store chainCopy = None.
Proof.
  intros fuel draws store chain blocks Hchain.
  unfold App.randomlyBreakOne. rewrite Hchain.
  destruct (App.select fuel draws 1 blocks (draws 0%nat))
    as [selectedBlock l | e l | l] eqn:Hselect; try discriminate.
  intros _. cbn [alloc App.calls App.store_after].
  destruct (select_returned _ _ _ _ _ _ _ Hselect) as (block & Hnth & Hne).
  exists selectedBlock, block, (List.length store).
  split; [exact Hnth|]. split; [exact Hne|]. split; [reflexivity|].
  rewrite (Array_update_at _ blocks selectedBlock block Hnth).
  split; [|split].
  - exact (proj1 (deref_alloc_new store _)).
  - exact (deref_alloc_old store _ chain blocks Hchain).
  - exact (proj2 (deref_alloc_new store [])).
Qed.

(** X17. On a chain in which every block has the index 0, the chain of the
    genesis block alone among them, [randomlyBreakOne] never reaches
    [setChain]: on the empty chain it throws at the first test of the loop,
    and otherwise, with draws inside of the chain, the loop draws again
    for ever. *)
Theorem randomlyBreakOne_needs_a_later_block :
  forall (fuel : nat) (draws : nat -> nat) (store : Store) (chain : ArrayRef)
         (blocks : list IBlock),
    deref store chain = Some blocks ->
    (forall block, In block blocks -> index block = 0%Z) ->
    App.calls (App.randomlyBreakOne fuel draws store chain) = [] /\
    App.ending (App.randomlyBreakOne fuel draws store chain) <> App.Finished /\
    (blocks = [] ->
     App.ending (App.randomlyBreakOne (S fuel) draws store chain)
     = App.Rejected
         (TypeError "Cannot read properties of undefined (reading 'index')")) /\
    ((forall n, (draws n < List.length blocks)%nat) ->
     App.ending (App.randomlyBreakOne fuel draws store chain) = App.Starved).
Proof.
  intros fuel draws store chain blocks Hchain Hzero.
  unfold App.randomlyBreakOne. rewrite Hchain.
  split; [|split; [|split]].
  - destruct (App.select fuel draws 1 blocks (draws 0%nat)) eqn:Hselect;
      try reflexivity.
    exfalso. exact (select_all_zero _ _ _ Hzero _ _ _ _ Hselect).
  - destruct (App.select fuel draws 1 blocks (draws 0%nat)) eqn:Hselect;
      try discriminate.
    exfalso. exact (select_all_zero _ _ _ Hzero _ _ _ _ Hselect).
  - intros ->. cbn [App.select]. unfold JS.Array_get.
    destruct (Z.ltb_spec (Z.of_nat (draws 0%nat)) 0); [lia|].
    rewrite Nat2Z.id. destruct (draws 0%nat); reflexivity.
  - intros Hdraws.
    rewrite (select_spins fuel draws blocks Hzero Hdraws 1 (draws 0%nat) (Hdraws 0%nat)).
    reflexivity.
Qed.

(** ** [verificationMap] and the marks of the cards *)

Lemma Map_get_set map key value key' :
  App.Map_get (App.Map_set map key value) key'
  = if (key =? key')%Z then Some value else App.Map_get map key'.
Proof.
  induction map as [|[k v] map IH]; [reflexivity|].
  cbn [App.Map_set]. destruct (Z.eqb_spec k key) as [-> | Hne]; cbn [App.Map_get].
  - destruct (key =? key')%Z; reflexivity.
  - rewrite IH. destruct (Z.eqb_spec k key') as [-> | Hne'];
      [|reflexivity].
    destruct (Z.eqb_spec key key'); [congruence | reflexivity].
Qed.

Lemma find_last {A : Type} (p : A -> bool) (l : list A) (a : A) :
  find p (l ++ [a])
  = match find p l with Some x => Some x | None => if p a then Some a else None end.
Proof.
  induction l as [|x l IH]; [reflexivity|].
  cbn [app find]. destruct (p x); [reflexivity | exact IH].
Qed.

Lemma verificationMap_fold verification key :
  forall map,
    App.Map_get
      (fold_left (fun map v => App.Map_set map (blockId v) (ok v)) verification map)
      key
    = match find (fun v => (blockId v =? key)%Z) (rev verification) with
      | Some v => Some (ok v)
      | None => App.Map_get map key
      end.
Proof.
  induction verification as [|v verification IH]; intros map; [reflexivity|].
  cbn [fold_left rev]. rewrite IH, find_last, Map_get_set.
  destruct (find _ (rev verification)); [reflexivity|].
  destruct (blockId v =? key)%Z; reflexivity.
Qed.

Lemma find_unique {A : Type} (f : A -> Z) (l : list A) (e : A) :
  NoDup (map f l) -> In e l -> find (fun x => (f x =? f e)%Z) l = Some e.
Proof.
  induction l as [|x l IH]; intros Hnodup Hin; [destruct Hin|].
  cbn [map] in Hnodup. inversion Hnodup as [|? ? Hnotin Hrest]; subst.
  cbn [find]. destruct Hin as [-> | Hin].
  - rewrite Z.eqb_refl. reflexivity.
  - destruct (Z.eqb_spec (f x) (f e)) as [Heq | _]; [|exact (IH Hrest Hin)].
    exfalso. apply Hnotin. rewrite Heq. apply in_map. exact Hin.
Qed.

Lemma verificationMap_at verification entry :
  NoDup (map blockId verification) ->
  In entry verification ->
  App.Map_get (App.verificationMap verification) (blockId entry) = Some (ok entry).
Proof.
  intros Hnodup Hin. unfold App.verificationMap.
  rewrite verificationMap_fold, (find_unique blockId (rev verification) entry).
  - reflexivity.
  - rewrite map_rev. apply NoDup_rev. exact Hnodup.
  - apply in_rev in Hin. exact Hin.
Qed.

(** X18. [verificationMap] keeps, for each block id, the verdict of the
    last entry of the report that carries this id, and has nothing for an
    id that no entry carries. *)
Theorem verificationMap_keeps_the_last_verdict :
  forall (verification : list Verdict) (key : Z),
    App.Map_get (App.verificationMap verification) key
    = option_map ok (find (fun v => (blockId v =? key)%Z) (rev verification)).
Proof.
  intros verification key. unfold App.verificationMap.
  rewrite verificationMap_fold. destruct (find _ _); reflexivity.
Qed.

(** X19. From the chain to the marks of the cards: on a chain whose blocks
    have pairwise different indices, an effect [verify] that is not
    cancelled sets the report of [validateChain], and with it the card of
    the first block is marked valid, and the card of any later block is
    marked valid exactly when this block and every block between the first
    and it pass both checks against their predecessors. *)
Theorem cards_show_the_sound_prefix :
  forall (algorithm : Crypto.SupportedAlgorithm) (store : Store)
         (chain : ArrayRef) (first : IBlock) (rest : list IBlock),
    deref store chain = Some (first :: rest) ->
    NoDup (map index (first :: rest)) ->
    exists report : list Verdict,
      App.calls (App.verify subtle_digest false store chain algorithm)
      = [App.setVerification []; App.setVerification report] /\
      App.marked_valid report first = true /\
      (forall j block,
         nth_error rest j = Some block ->
         App.marked_valid report block
         = sound algorithm first (firstn (S j) rest)).
Proof.
  intros algorithm store chain first rest Hchain Hnodup.
  exists (verdict first true :: verdicts algorithm first rest false).
  assert (Hids : NoDup (map blockId
                          (verdict first true :: verdicts algorithm first rest false))).
  { cbn [map verdict blockId]. rewrite verdicts_blockIds. exact Hnodup. }
  split; [|split].
  - unfold App.verify. rewrite Hchain, validateChain_walk. reflexivity.
  - unfold App.marked_valid.
    change (index first) with (blockId (verdict first true)).
    rewrite (verificationMap_at _ _ Hids (or_introl eq_refl)). reflexivity.
  - intros j block Hblock.
    assert (Hlen : (j < List.length (verdicts algorithm first rest false))%nat).
    { rewrite verdicts_length. apply nth_error_Some. congruence. }
    destruct (nth_error (verdicts algorithm first rest false) j) as [entry|] eqn:Hentry;
      [|apply nth_error_None in Hentry; lia].
    destruct (verdicts_nth _ _ _ _ _ _ Hentry) as (Hok & block' & Hblock' & Hid).
    rewrite Hblock in Hblock'. injection Hblock' as <-.
    unfold App.marked_valid. rewrite <- Hid.
    rewrite (verificationMap_at _ entry Hids
               (or_intror (nth_error_In _ _ Hentry))).
    rewrite Hok. cbn [negb andb]. destruct (sound algorithm first _); reflexivity.
Qed.

End Properties.

(* ================================================================== *)
(** * Runs with the digest of a browser *)

Section Browser.
Import Examples.

(** ** The engine on the example chain *)

Example genesis_is_mined :
  createGenesisBlock Crypto.webcrypto 15 clock Crypto.SHA_256 1
  = Returned genesis (search_log Crypto.SHA_256 genesis_template 14).
Proof. vm_compute. reflexivity. Qed.

Example chain_is_built :
  match addBlock Crypto.webcrypto 11 clock [[genesis]] 0%nat "tx1"
          Crypto.SHA_256 1 with
  | Returned r _ => Some r
  | _ => None
  end
  = Some (1%nat, [[genesis]; [genesis; block1]]).
Proof. vm_compute. reflexivity. Qed.

Example chain_is_valid :
  exists log,
    validateChain Crypto.webcrypto Crypto.SHA_256 [genesis; block1; block2]
    = Returned [ {| blockId := 0; ok := true |}; {| blockId := 1; ok := true |};
                 {| blockId := 2; ok := true |} ] log.
Proof. eexists. vm_compute. reflexivity. Qed.

Example broken_chain_is_reported :
  exists log,
    validateChain Crypto.webcrypto Crypto.SHA_256 [genesis; block1_broken; block2]
    = Returned [ {| blockId := 0; ok := true |}; {| blockId := 1; ok := false |};
                 {| blockId := 2; ok := false |} ] log.
Proof. eexists. vm_compute. reflexivity. Qed.

(** ** Lengths *)

Lemma string_length_append (s s' : string) :
  String.length (s ++ s') = (String.length s + String.length s')%nat.
Proof. induction s; cbn; [reflexivity | f_equal; assumption]. Qed.

Lemma hex_pair_length (b : byte) :
  String.length (JS.padStart (JS.Number_toString16 (Byte.to_N b)) 2 "0") = 2%nat.
Proof. destruct b; reflexivity. Qed.

Lemma to_hex_length (bytes : list byte) :
  String.length (Crypto.to_hex bytes) = (2 * List.length bytes)%nat.
Proof.
  unfold Crypto.to_hex, JS.join.
  induction bytes as [|b [|b' bytes] IH]; [reflexivity | apply hex_pair_length |].
  cbn [map String.concat List.length] in *.
  rewrite !string_length_append, hex_pair_length, IH. cbn. lia.
Qed.






(** ** Numbers beyond 2^53 *)

Example content_beyond_the_safe_range :
  content (2 ^ 53) 1 "t" "p" 0 = "9007199254740992tp0"
  /\ content (2 ^ 53) 3 "t" "p" 0 = "9007199254740996tp0"
  /\ content (2 ^ 64) 0 "t" "p" (2 ^ 70)
     = "18446744073709552000tp1.1805916207174113e+21"
  /\ content (10 ^ 21) 0 "t" "p" (- 10 ^ 21) = "1e+21tp-1e+21"
  /\ content JS.MAX_VALUE JS.MAX_VALUE "t" "p" 0 = "Infinitytp0".
Proof. vm_compute. repeat split. Qed.

Example addBlock_at_index_2_53 :
  match addBlock Crypto.webcrypto 1 clock [[far_block]] 0%nat "tx"
          Crypto.SHA_256 0 with
  | Returned (chain', store') _ =>
      option_map (map index) (deref store' chain')
  | _ => None
  end
  = Some [2 ^ 53; 2 ^ 53]%Z.
Proof. vm_compute. reflexivity. Qed.

(** ** C1: what [createBlock] hashes *)

(** C1. The string that [createBlock] hashes starts with the decimal form
    of the sum [index + timestamp], not with the two decimal forms one after
    the other: both operands of the first [+] are numbers.  For index 1,
    timestamp 1000, transaction "tx", previous hash "0" and nonce 0 the
    digest asked for is that of "1001tx00", which is not the digest of
    "11000tx00"; the block of index 2 and timestamp 999 gets the same hash;
    and [validateChain] accepts [block1] with its index raised and its
    timestamp lowered by one, its hash untouched. *)
Theorem createBlock_hashes_index_plus_timestamp :
  createBlock Crypto.webcrypto Crypto.SHA_256 1 1000 "tx" "0" None
  = Returned
      {| index := 1; timestamp := 1000; transaction := "tx"; previousHash := "0";
         hash := "98473fdb386569bb0cfe6948e946c7653cfc4b95725601f169481b69ef6a7b59";
         nonce := 0; duration := 0%float |}
      [SubtleDigest "SHA-256" (JS.TextEncoder_encode "1001tx00")]
  /\ fields_concatenated 1 1000 "tx" "0" 0 = "11000tx00"
  /\ hexdigest Crypto.webcrypto Crypto.SHA_256 (fields_concatenated 1 1000 "tx" "0" 0)
     = "e43e09984ba57545a5472098052ae34e0668080e3aa469e464b314dedd4742a6"
  /\ createBlock Crypto.webcrypto Crypto.SHA_256 2 999 "tx" "0" None
     = Returned
         {| index := 2; timestamp := 999; transaction := "tx"; previousHash := "0";
            hash := "98473fdb386569bb0cfe6948e946c7653cfc4b95725601f169481b69ef6a7b59";
            nonce := 0; duration := 0%float |}
         [SubtleDigest "SHA-256" (JS.TextEncoder_encode "1001tx00")]
  /\ (exists log,
        validateChain Crypto.webcrypto Crypto.SHA_256 [genesis; block1_shifted]
        = Returned [ {| blockId := 0; ok := true |}; {| blockId := 2; ok := true |} ]
            log).
Proof.
  split; [vm_compute; reflexivity|].
  split; [vm_compute; reflexivity|].
  split; [vm_compute; reflexivity|].
  split; [vm_compute; reflexivity|].
  eexists. vm_compute. reflexivity.
Qed.

(** ** C3 and C5: a search that never ends *)



(** ** Instances of the theorems that carry a hypothesis *)

Lemma validateChain_cascades_witness :
  (1 <= 1)%nat /\
  nth_error [genesis; block1_broken; block2] (1 - 1)%nat = Some genesis /\
  nth_error [genesis; block1_broken; block2] 1%nat = Some block1_broken /\
  integrity Crypto.webcrypto Crypto.SHA_256 block1_broken = false /\
  exists (report : list Verdict) (log : list Event),
    validateChain Crypto.webcrypto Crypto.SHA_256 [genesis; block1_broken; block2]
    = Returned report log /\
    List.length report = List.length [genesis; block1_broken; block2] /\
    (forall j entry,
       (1 <= j)%nat -> nth_error report j = Some entry -> ok entry = false) /\
    events (validateChain Crypto.webcrypto Crypto.SHA_256
              (firstn 2%nat [genesis; block1_broken; block2])) = log /\
    (forall chain' report' log',
       firstn 1%nat chain' = firstn 1%nat [genesis; block1_broken; block2] ->
       validateChain Crypto.webcrypto Crypto.SHA_256 chain' = Returned report' log' ->
       firstn 1%nat report' = firstn 1%nat report).
Proof.
  split; [lia|]. split; [reflexivity|]. split; [reflexivity|].
  split; [vm_compute; reflexivity|].
  apply (validateChain_cascades Crypto.webcrypto Crypto.SHA_256
           [genesis; block1_broken; block2] 1%nat genesis block1_broken).
  - lia.
  - reflexivity.
  - reflexivity.
  - left. vm_compute. reflexivity.
Defined.




Lemma addBlock_on_empty_chain_fails_witness :
  deref [[]] 0%nat = Some [] /\
  addBlock Crypto.webcrypto 11 clock [[]] 0%nat "tx1" Crypto.SHA_256 1
  = Thrown (TypeError "Cannot read properties of undefined (reading 'index')") [].
Proof.
  split; [reflexivity|].
  apply (addBlock_on_empty_chain_fails Crypto.webcrypto 11%nat clock [[]] 0%nat "tx1"
           Crypto.SHA_256 1%nat).
  reflexivity.
Defined.


Lemma mineBlock_trusts_stored_hash_witness :
  JS.startsWith (hash forged) (JS.repeat "0" 2) = true /\
  hash forged <> hexdigest Crypto.webcrypto Crypto.SHA_256 (content_of forged) /\
  mineBlock Crypto.webcrypto 1 forged Crypto.SHA_256 2 = Returned forged [].
Proof.
  split; [reflexivity|]. split; [vm_compute; discriminate|].
  apply (mineBlock_trusts_stored_hash Crypto.webcrypto 0%nat forged Crypto.SHA_256 2%nat).
  reflexivity.
Defined.

End Browser.

(* ================================================================== *)
(** * The printed digest *)

Section Printing.
Variable subtle_digest : Crypto.SupportedAlgorithm -> list byte -> list byte.

Lemma hex_pair_read (b : byte) : hex_pair_value (hex_pair b) = Byte.to_N b.
Proof. destruct b; vm_compute; reflexivity. Qed.

Lemma hex_pair_lower (b : byte) :
  forallb is_lower_hex (list_ascii_of_string (hex_pair b)) = true.
Proof. destruct b; vm_compute; reflexivity. Qed.

Lemma hex_pair_inj (b b' : byte) : hex_pair b = hex_pair b' -> b = b'.
Proof.
  intros H. apply (f_equal hex_pair_value) in H. rewrite !hex_pair_read in H.
  apply (f_equal Byte.of_N) in H. rewrite !Byte.of_to_N in H.
  injection H as ->. reflexivity.
Qed.

Lemma to_hex_cons (b : byte) (bytes : list byte) :
  Crypto.to_hex (b :: bytes) = (hex_pair b ++ Crypto.to_hex bytes)%string.
Proof.
  unfold Crypto.to_hex, JS.join. cbn [map String.concat].
  destruct bytes as [|b' bytes]; cbn [map String.concat].
  - fold (hex_pair b). generalize (hex_pair b) as s.
    induction s; cbn; [reflexivity | f_equal; assumption].
  - reflexivity.
Qed.

Lemma append_inj (a a' r r' : string) :
  String.length a = String.length a' ->
  (a ++ r)%string = (a' ++ r')%string -> a = a' /\ r = r'.
Proof.
  revert a'. induction a as [|c a IH]; intros [|c' a'] Hlen H; cbn in *;
    try discriminate.
  - split; [reflexivity | exact H].
  - injection H as -> H. injection Hlen as Hlen.
    destruct (IH a' Hlen H) as [-> ->]. split; reflexivity.
Qed.

Lemma to_hex_inj (bytes : list byte) :
  forall bytes', Crypto.to_hex bytes = Crypto.to_hex bytes' -> bytes = bytes'.
Proof.
  induction bytes as [|b bytes IH]; intros [|b' bytes'] H.
  - reflexivity.
  - apply (f_equal String.length) in H. rewrite !to_hex_length in H.
    cbn in H. lia.
  - apply (f_equal String.length) in H. rewrite !to_hex_length in H.
    cbn in H. lia.
  - rewrite !to_hex_cons in H.
    apply append_inj in H; [|unfold hex_pair; rewrite !hex_pair_length; reflexivity].
    destruct H as [Hb Hrest]. apply hex_pair_inj in Hb. apply IH in Hrest.
    subst. reflexivity.
Qed.

Lemma to_hex_lower (bytes : list byte) :
  forallb is_lower_hex (list_ascii_of_string (Crypto.to_hex bytes)) = true.
Proof.
  induction bytes as [|b bytes IH]; [reflexivity|].
  rewrite to_hex_cons.
  assert (Happ : forall s s', list_ascii_of_string (s ++ s')
                              = list_ascii_of_string s ++ list_ascii_of_string s').
  { induction s; intros; cbn; [reflexivity | f_equal; apply IHs]. }
  rewrite Happ, forallb_app, hex_pair_lower, IH. reflexivity.
Qed.

(** X20. The hexadecimal form that [hash] returns loses nothing of the
    digest: it has two characters per byte, all of them digits or lower
    case letters from a to f, and two calls return the same string only
    when the platform returned the same bytes.  This holds for the default
    format and for "hex". *)
Theorem hash_hex_is_faithful :
  forall (algorithm algorithm' : Crypto.SupportedAlgorithm) (data data' : string)
         (format format' : option Crypto.SupportedOutputFormat)
         (value value' : string) (log log' : list Event),
    format <> Some Crypto.base64 ->
    format' <> Some Crypto.base64 ->
    Crypto.hash subtle_digest (Some algorithm) (Some data) format
    = Returned value log ->
    Crypto.hash subtle_digest (Some algorithm') (Some data') format'
    = Returned value' log' ->
    String.length value
    = (2 * List.length (subtle_digest algorithm (JS.TextEncoder_encode data)))%nat /\
    forallb is_lower_hex (list_ascii_of_string value) = true /\
    (value = value'
     <-> subtle_digest algorithm (JS.TextEncoder_encode data)
         = subtle_digest algorithm' (JS.TextEncoder_encode data')).
Proof.
  intros algorithm algorithm' data data' format format' value value' log log'
    Hformat Hformat' Hrun Hrun'.
  assert (Hvalue : forall a d f v l,
             f <> Some Crypto.base64 ->
             Crypto.hash subtle_digest (Some a) (Some d) f = Returned v l ->
             v = Crypto.to_hex (subtle_digest a (JS.TextEncoder_encode d))).
  { clear. intros a d f v l Hf H.
    destruct d as [|c d]; [destruct a; discriminate H|].
    destruct f as [[|]|]; [| congruence |];
      destruct a; cbn in H; injection H as <- _; reflexivity. }
  rewrite (Hvalue _ _ _ _ _ Hformat Hrun), (Hvalue _ _ _ _ _ Hformat' Hrun').
  split; [apply to_hex_length|]. split; [apply to_hex_lower|].
  split; [apply to_hex_inj | intros ->; reflexivity].
Qed.

(** X2. At difficulty 0 [createGenesisBlock] computes no hash at all: the
    template, whose hash is the empty string, is returned as it is, with
    the duration stamped, and the digest of the platform is never asked.
    Such a genesis block would fail the hash-integrity check of
    [validateChain] under any digest that returns at least one byte. *)
Theorem createGenesisBlock_difficulty_zero_has_no_hash :
  forall (fuel : nat) (t : Timing) (algorithm : Crypto.SupportedAlgorithm),
    createGenesisBlock subtle_digest (S fuel) t algorithm 0
    = Returned
        {| index := 0; timestamp := wall_clock t; transaction := "Genesis Block";
           previousHash := "0"; hash := ""; nonce := 0;
           duration := (finished t - started t)%float |}
        [] /\
    (subtle_digest algorithm
       (JS.TextEncoder_encode (content 0 (wall_clock t) "Genesis Block" "0" 0))
     <> [] ->
     integrity subtle_digest algorithm
       {| index := 0; timestamp := wall_clock t; transaction := "Genesis Block";
          previousHash := "0"; hash := ""; nonce := 0;
          duration := (finished t - started t)%float |}
     = false).
Proof.
  intros fuel t algorithm. split; [reflexivity|].
  intros Hbytes. unfold integrity, content_of, hexdigest.
  cbn [index timestamp transaction previousHash nonce hash].
  apply String.eqb_neq. intros Hempty.
  apply (f_equal String.length) in Hempty. rewrite to_hex_length in Hempty.
  destruct (subtle_digest algorithm _); [congruence | discriminate Hempty].
Qed.

End Printing.

(* ================================================================== *)
(** * Instances of the further theorems, with the digest of a browser *)

Section Instances.
Import Examples.


Lemma mineBlock_accepts_its_result_witness :
  mineBlock Crypto.webcrypto 15 genesis_template Crypto.SHA_256 1
  = Returned (candidate Crypto.webcrypto Crypto.SHA_256 genesis_template 14)
      (search_log Crypto.SHA_256 genesis_template 14) /\
  mineBlock Crypto.webcrypto 1
    (candidate Crypto.webcrypto Crypto.SHA_256 genesis_template 14)
    Crypto.SHA_512 0
  = Returned (candidate Crypto.webcrypto Crypto.SHA_256 genesis_template 14) [].
Proof.
  split; [vm_compute; reflexivity|].
  apply (mineBlock_accepts_its_result Crypto.webcrypto Crypto.SHA_256
           Crypto.SHA_512 1%nat 0%nat 15%nat 0%nat genesis_template
           (candidate Crypto.webcrypto Crypto.SHA_256 genesis_template 14)
           (search_log Crypto.SHA_256 genesis_template 14)).
  - vm_compute. reflexivity.
  - lia.
Defined.

Lemma validateChain_never_recovers_witness :
  validateChain Crypto.webcrypto Crypto.SHA_256 [genesis; block1_broken; block2]
  = Returned [ {| blockId := 0; ok := true |}; {| blockId := 1; ok := false |};
               {| blockId := 2; ok := false |} ]
      (events (validateChain Crypto.webcrypto Crypto.SHA_256
                 [genesis; block1_broken; block2])) /\
  ok {| blockId := 2; ok := false |} = false.
Proof.
  split; [vm_compute; reflexivity|].
  apply (validateChain_never_recovers Crypto.webcrypto Crypto.SHA_256
           [genesis; block1_broken; block2]
           [ {| blockId := 0; ok := true |}; {| blockId := 1; ok := false |};
             {| blockId := 2; ok := false |} ]
           (events (validateChain Crypto.webcrypto Crypto.SHA_256
                      [genesis; block1_broken; block2]))
           1%nat 2%nat {| blockId := 1; ok := false |} {| blockId := 2; ok := false |}).
  - vm_compute. reflexivity.
  - lia.
  - reflexivity.
  - reflexivity.
  - reflexivity.
Defined.

Lemma validateChain_reads_index_and_hash_of_first_witness :
  index genesis = index (App.with_transaction genesis "anything else") /\
  hash genesis = hash (App.with_transaction genesis "anything else") /\
  validateChain Crypto.webcrypto Crypto.SHA_256 [genesis; block1; block2]
  = validateChain Crypto.webcrypto Crypto.SHA_256
      [App.with_transaction genesis "anything else"; block1; block2].
Proof.
  split; [reflexivity|]. split; [reflexivity|].
  apply (validateChain_reads_index_and_hash_of_first Crypto.webcrypto
           Crypto.SHA_256 genesis (App.with_transaction genesis "anything else")
           [block1; block2]).
  - reflexivity.
  - reflexivity.
Defined.

Lemma validateChain_sees_index_plus_timestamp_witness :
  Forall2 same_sum [genesis; block1] [genesis; block1_shifted] /\
  exists (report report' : list Verdict) (log : list Event),
    validateChain Crypto.webcrypto Crypto.SHA_256 [genesis; block1]
    = Returned report log /\
    validateChain Crypto.webcrypto Crypto.SHA_256 [genesis; block1_shifted]
    = Returned report' log /\
    map ok report = map ok report'.
Proof.
  assert (H : Forall2 same_sum [genesis; block1] [genesis; block1_shifted]).
  { repeat constructor. }
  split; [exact H|].
  apply (validateChain_sees_index_plus_timestamp Crypto.webcrypto Crypto.SHA_256
           [genesis; block1] [genesis; block1_shifted]).
  exact H.
Defined.

Lemma addBlock_links_the_new_block_witness :
  deref [[genesis]] 0%nat = Some ([] ++ [genesis]) /\
  exists block : IBlock,
    deref [[genesis]; [genesis; block1]] 1%nat = Some (([] ++ [genesis]) ++ [block]) /\
    index block = (index genesis + 1)%Z /\
    timestamp block = wall_clock clock /\
    Blockchain.transaction block = "tx1" /\
    previousHash block = hash genesis /\
    duration block = (finished clock - started clock)%float /\
    (0 <= nonce block)%Z /\
    hash block = hexdigest Crypto.webcrypto Crypto.SHA_256 (content_of block) /\
    JS.startsWith (hash block) (JS.repeat "0" 1) = true.
Proof.
  split; [reflexivity|].
  destruct (addBlock_links_the_new_block Crypto.webcrypto 11%nat clock [[genesis]]
              0%nat [] genesis "tx1" Crypto.SHA_256 1%nat 1%nat
              [[genesis]; [genesis; block1]]
              (events (addBlock Crypto.webcrypto 11 clock [[genesis]] 0%nat "tx1"
                         Crypto.SHA_256 1)))
    as (block & Hchain & _ & Hindex & Hrest).
  - reflexivity.
  - vm_compute. reflexivity.
  - exists block. split; [exact Hchain|]. split; [|exact Hrest].
    apply Hindex. vm_compute. split; discriminate || reflexivity.
Defined.

Lemma addBlock_then_validateChain_witness :
  validateChain Crypto.webcrypto Crypto.SHA_256 ([] ++ [genesis])
  = Returned [ {| blockId := 0; ok := true |} ] [] /\
  exists (blocks' : list IBlock) (vlog' : list Event),
    deref [[genesis]; [genesis; block1]] 1%nat = Some blocks' /\
    validateChain Crypto.webcrypto Crypto.SHA_256 blocks'
    = Returned ([ {| blockId := 0; ok := true |} ]
                ++ [{| blockId := JS.add (index genesis) 1;
                       ok := forallb ok [ {| blockId := 0; ok := true |} ] |}])
        vlog'.
Proof.
  split; [reflexivity|].
  apply (addBlock_then_validateChain Crypto.webcrypto 11%nat clock [[genesis]]
           0%nat [] genesis "tx1" Crypto.SHA_256 1%nat 1%nat
           [[genesis]; [genesis; block1]]
           (events (addBlock Crypto.webcrypto 11 clock [[genesis]] 0%nat "tx1"
                      Crypto.SHA_256 1))
           [ {| blockId := 0; ok := true |} ] []).
  - reflexivity.
  - vm_compute. reflexivity.
  - reflexivity.
Defined.

Lemma recalculate_rebuilds_the_chain_witness :
  App.ending (App.recalculate Crypto.webcrypto 15 (fun _ => clock) (fun _ => false)
                [[genesis; block1; block2]] 0%nat Crypto.SHA_256 1)
  = App.Finished /\
  exists (final : ArrayRef) (blocks' : list IBlock) (report : list Verdict)
         (log : list Event),
    App.shown (App.calls (App.recalculate Crypto.webcrypto 15 (fun _ => clock)
                            (fun _ => false) [[genesis; block1; block2]] 0%nat
                            Crypto.SHA_256 1)) None
    = Some final /\
    deref (App.store_after (App.recalculate Crypto.webcrypto 15 (fun _ => clock)
                              (fun _ => false) [[genesis; block1; block2]] 0%nat
                              Crypto.SHA_256 1)) final
    = Some blocks' /\
    map transaction blocks'
    = "Genesis Block" :: map transaction (skipn 1 [genesis; block1; block2]) /\
    map index blocks' = map Z.of_nat (seq 0 (List.length blocks')) /\
    validateChain Crypto.webcrypto Crypto.SHA_256 blocks' = Returned report log /\
    forallb ok report = true /\
    deref (App.store_after (App.recalculate Crypto.webcrypto 15 (fun _ => clock)
                              (fun _ => false) [[genesis; block1; block2]] 0%nat
                              Crypto.SHA_256 1)) 0%nat
    = Some [genesis; block1; block2].
Proof.
  split; [vm_compute; reflexivity|].
  destruct (recalculate_rebuilds_the_chain Crypto.webcrypto 15%nat (fun _ => clock)
              (fun _ => false) [[genesis; block1; block2]] 0%nat
              [genesis; block1; block2] Crypto.SHA_256 1%nat)
    as (final & blocks' & report & log & Hfinal & Hblocks' & Htxs & _ & Hidx
        & Hrest).
  - reflexivity.
  - vm_compute. reflexivity.
  - exists final, blocks', report, log.
    split; [exact Hfinal|]. split; [exact Hblocks'|]. split; [exact Htxs|].
    split; [|exact Hrest].
    apply Hidx.
    pose proof (f_equal (@List.length string) Htxs) as Hlen.
    rewrite length_map in Hlen. rewrite Hlen. vm_compute. reflexivity.
Defined.

Lemma addBlock_handler_on_empty_chain_witness :
  deref [[]] 0%nat = Some [] /\
  App.addBlock Crypto.webcrypto 11 clock [[]] 0%nat "tx1" Crypto.SHA_256 1
  = {| App.calls := [App.setIsCalculating true]; App.store_after := [[]];
       App.ending :=
         App.Rejected
           (TypeError "Cannot read properties of undefined (reading 'index')") |}.
Proof.
  split; [reflexivity|].
  apply (addBlock_handler_on_empty_chain Crypto.webcrypto 11%nat clock [[]] 0%nat
           "tx1" Crypto.SHA_256 1%nat).
  reflexivity.
Defined.

Lemma randomlyBreakOne_breaks_one_later_block_witness :
  App.ending (App.randomlyBreakOne 3 (fun n => Nat.modulo n 3)
                [[genesis; block1; block2]] 0%nat) = App.Finished /\
  exists (selectedBlock : nat) (block : IBlock) (chainCopy : ArrayRef),
    nth_error [genesis; block1; block2] selectedBlock = Some block /\
    index block <> 0%Z /\
    App.calls (App.randomlyBreakOne 3 (fun n => Nat.modulo n 3)
                 [[genesis; block1; block2]] 0%nat)
    = [App.setChain chainCopy] /\
    deref (App.store_after (App.randomlyBreakOne 3 (fun n => Nat.modulo n 3)
                              [[genesis; block1; block2]] 0%nat)) chainCopy
    = Some (firstn selectedBlock [genesis; block1; block2]
            ++ App.with_transaction block "Oops! I broke this one"
               :: skipn (S selectedBlock) [genesis; block1; block2]) /\
    deref (App.store_after (App.randomlyBreakOne 3 (fun n => Nat.modulo n 3)
                              [[genesis; block1; block2]] 0%nat)) 0%nat
    = Some [genesis; block1; block2] /\
    deref [[genesis; block1; block2]] chainCopy = None.
Proof.
  split; [reflexivity|].
  apply (randomlyBreakOne_breaks_one_later_block 3%nat (fun n => Nat.modulo n 3)
           [[genesis; block1; block2]] 0%nat [genesis; block1; block2]).
  - reflexivity.
  - reflexivity.
Defined.

Lemma randomlyBreakOne_needs_a_later_block_witness :
  App.calls (App.randomlyBreakOne 100 (fun _ => 0%nat) [[genesis]] 0%nat) = [] /\
  App.ending (App.randomlyBreakOne 100 (fun _ => 0%nat) [[genesis]] 0%nat)
  <> App.Finished /\
  ([genesis] = [] ->
   App.ending (App.randomlyBreakOne 101 (fun _ => 0%nat) [[genesis]] 0%nat)
   = App.Rejected
       (TypeError "Cannot read properties of undefined (reading 'index')")) /\
  ((forall n : nat, ((fun _ => 0%nat) n < List.length [genesis])%nat) ->
   App.ending (App.randomlyBreakOne 100 (fun _ => 0%nat) [[genesis]] 0%nat)
   = App.Starved).
Proof.
  apply (randomlyBreakOne_needs_a_later_block 100%nat (fun _ => 0%nat) [[genesis]]
           0%nat [genesis]).
  - reflexivity.
  - intros block [<- | []]. reflexivity.
Defined.

Lemma cards_show_the_sound_prefix_witness :
  NoDup (map index [genesis; block1_broken; block2]) /\
  exists report : list Verdict,
    App.calls (App.verify Crypto.webcrypto false [[genesis; block1_broken; block2]]
                 0%nat Crypto.SHA_256)
    = [App.setVerification []; App.setVerification report] /\
    App.marked_valid report genesis = true /\
    (forall j block,
       nth_error [block1_broken; block2] j = Some block ->
       App.marked_valid report block
       = sound Crypto.webcrypto Crypto.SHA_256 genesis
           (firstn (S j) [block1_broken; block2])).
Proof.
  assert (H : NoDup (map index [genesis; block1_broken; block2])).
  { cbn. repeat constructor; cbn; intros F;
      repeat (destruct F as [F | F]; [discriminate F|]); exact F. }
  split; [exact H|].
  apply (cards_show_the_sound_prefix Crypto.webcrypto Crypto.SHA_256
           [[genesis; block1_broken; block2]] 0%nat genesis
           [block1_broken; block2]).
  - reflexivity.
  - exact H.
Defined.

Lemma recalculate_abandoned_at_the_first_set_flag_witness :
  App.ending (App.recalculate Crypto.webcrypto 15 (fun _ => clock)
                (fun i => Nat.eqb i 2) [[genesis; block1; block2]] 0%nat
                Crypto.SHA_256 1)
  = App.Abandoned /\
  exists (k : nat) (final : ArrayRef) (blocks' : list IBlock),
    (fun i => Nat.eqb i 2) k = true /\
    (forall j, (j < k)%nat -> (fun i => Nat.eqb i 2) j = false) /\
    (k <= List.length (skipn 1 [genesis; block1; block2]))%nat /\
    App.shown (App.calls (App.recalculate Crypto.webcrypto 15 (fun _ => clock)
                            (fun i => Nat.eqb i 2) [[genesis; block1; block2]]
                            0%nat Crypto.SHA_256 1)) None
    = Some final /\
    deref (App.store_after (App.recalculate Crypto.webcrypto 15 (fun _ => clock)
                              (fun i => Nat.eqb i 2) [[genesis; block1; block2]]
                              0%nat Crypto.SHA_256 1)) final
    = Some blocks' /\
    List.length blocks' = k.
Proof.
  split; [vm_compute; reflexivity|].
  apply (recalculate_abandoned_at_the_first_set_flag Crypto.webcrypto 15%nat
           (fun _ => clock) (fun i => Nat.eqb i 2) [[genesis; block1; block2]]
           0%nat [genesis; block1; block2] Crypto.SHA_256 1%nat).
  - reflexivity.
  - vm_compute. reflexivity.
Defined.

Lemma hash_hex_is_faithful_witness :
  String.length "ba7816bf8f01cfea414140de5dae2223b00361a396177a9cb410ff61f20015ad"
  = (2 * List.length (Crypto.webcrypto Crypto.SHA_256 (JS.TextEncoder_encode "abc")))%nat /\
  forallb is_lower_hex
    (list_ascii_of_string
       "ba7816bf8f01cfea414140de5dae2223b00361a396177a9cb410ff61f20015ad") = true /\
  ("ba7816bf8f01cfea414140de5dae2223b00361a396177a9cb410ff61f20015ad"
   = "a52d159f262b2c6ddb724a61840befc36eb30c88877a4030b65cbe86298449c9"
   <-> Crypto.webcrypto Crypto.SHA_256 (JS.TextEncoder_encode "abc")
       = Crypto.webcrypto Crypto.SHA_256 (JS.TextEncoder_encode "abd")).
Proof.
  apply (hash_hex_is_faithful Crypto.webcrypto Crypto.SHA_256 Crypto.SHA_256
           "abc" "abd" None (Some Crypto.hex)
           "ba7816bf8f01cfea414140de5dae2223b00361a396177a9cb410ff61f20015ad"
           "a52d159f262b2c6ddb724a61840befc36eb30c88877a4030b65cbe86298449c9"
           [SubtleDigest "SHA-256" (JS.TextEncoder_encode "abc")]
           [SubtleDigest "SHA-256" (JS.TextEncoder_encode "abd")]).
  - discriminate.
  - discriminate.
  - vm_compute. reflexivity.
  - vm_compute. reflexivity.
Defined.

End Instances.
